(** * Orphan-snapshot reaper: a shallow embedding of [snapshot-delete-script.py]

    The script is one function, [lambda_handler], that talks to the EC2 API
    through a boto3 client: it lists the account's snapshots, asks for the
    status of the volume each snapshot was taken from, collects the snapshots
    whose volume is reported missing and deletes them.

    The embedding keeps the shape of the Python code.  The provider is an
    explicit state machine, the handler is a computation in a state, error
    and trace monad, Python dictionaries are finite maps with string keys,
    and [try]/[except] is a combinator that evaluates the expression of the
    [except] clause only when the body has raised, as Python does. *)

From Stdlib Require Import ZArith Lia.
From stdpp Require Import base gmap list strings.

Local Open Scope Z_scope.

(** ** Python values the script handles *)

(** The exceptions that can travel through the handler.  [ClientError] is
    botocore's service error: [code] is [e.response["Error"]["Code"]] and
    [text] is [str(e)].  [ClientErrorNoCode] is a service error whose
    [response] has no such entry: [missing] is the key whose lookup fails,
    ["Error"] when the response has no entry of that name and ["Code"] when
    the entry ["Error"] has none.  [OtherError] stands for every exception
    of the SDK that is not a [ClientError] (connection failures, timeouts,
    ...). *)
Inductive exn : Type :=
| ClientError (code : string) (text : string)
| ClientErrorNoCode (missing : string) (text : string)
| KeyError (key : string)
| AttributeError (obj : string) (attr : string)
| OtherError (text : string).

(** The only exception class the script names. *)
Inductive pyclass : Type :=
| ClientErrorClass.

Definition isinstance (e : exn) (c : pyclass) : bool :=
  match c, e with
  | ClientErrorClass, ClientError _ _ => true
  | ClientErrorClass, ClientErrorNoCode _ _ => true
  | ClientErrorClass, _ => false
  end.

(** [str(e)], as used by the f-string of the failure body. *)
Definition exn_str (e : exn) : string :=
  match e with
  | ClientError _ text => text
  | ClientErrorNoCode _ text => text
  | KeyError key => "'" +:+ key +:+ "'"
  | AttributeError obj attr =>
      "'" +:+ obj +:+ "' object has no attribute '" +:+ attr +:+ "'"
  | OtherError text => text
  end.

(** A snapshot record of the listing and the listing's response are Python
    dictionaries with string keys. *)
Abbreviation Snapshot := (gmap string string).
Abbreviation Response := (gmap string (list (gmap string string))).

(** The dictionary the handler returns: [{"statusCode": ..., "body": ...}],
    the body being present on the failure path only. *)
Record Result : Type := mkResult {
  statusCode : Z;
  body : option string
}.

(** ** The provider and the trace of an invocation *)

(** What an invocation does that the outside can see: the calls to the
    three EC2 operations, with their arguments and whether they raised, and
    the records sent to the logger. *)
Inductive Event : Type :=
| DescribeSnapshots (OwnerIds : list string) (DryRun : bool)
| DescribeVolumeStatus (VolumeIds : list string) (DryRun : bool)
                       (raised : option exn)
| DeleteSnapshot (SnapshotId : string) (raised : option exn)
| LogInfo (msg : string).

(** The three operations of the EC2 client the script calls, over a provider
    state [St].  Each may raise and may change the state. *)
Record Provider (St : Type) : Type := mkProvider {
  describe_snapshots :
    list string -> bool -> St -> (exn + Response) * St;
  describe_volume_status :
    list string -> bool -> St -> option exn * St;
  delete_snapshot :
    string -> St -> option exn * St
}.

Arguments describe_snapshots {St} _ _ _ _.
Arguments describe_volume_status {St} _ _ _ _.
Arguments delete_snapshot {St} _ _ _.

(** ** The monad of the handler: provider state, exceptions, trace *)

Definition M (St A : Type) : Type := St -> (exn + A) * St * list Event.

Definition ret {St A} (a : A) : M St A :=
  fun s => (inr a, s, []).

Definition raise {St A} (e : exn) : M St A :=
  fun s => (inl e, s, []).

Definition bind {St A B} (m : M St A) (k : A -> M St B) : M St B :=
  fun s =>
    match m s with
    | (inl e, s1, t1) => (inl e, s1, t1)
    | (inr a, s1, t1) =>
        match k a s1 with
        | (r, s2, t2) => (r, s2, t1 ++ t2)
        end
    end.

Notation "'let*' x ':=' m 'in' k" := (bind m (fun x => k))
  (at level 10, x name, m at level 100, k at level 200, only parsing).

(** [try: body except cls as e: handler e].  The expression [cls] of the
    [except] clause is evaluated only once the body has raised; if that
    evaluation raises, its exception replaces the one in flight.  An
    exception that is not an instance of the class goes on propagating. *)
Definition try_except {St A} (body : M St A) (cls : M St pyclass)
    (handler : exn -> M St A) : M St A :=
  fun s =>
    match body s with
    | (inr a, s1, t1) => (inr a, s1, t1)
    | (inl e, s1, t1) =>
        match cls s1 with
        | (inl e', s2, t2) => (inl e', s2, t1 ++ t2)
        | (inr c, s2, t2) =>
            if isinstance e c then
              match handler e s2 with
              | (r, s3, t3) => (r, s3, t1 ++ t2 ++ t3)
              end
            else (inl e, s2, t1 ++ t2)
        end
    end.

(** [d[key]] on a dictionary. *)
Definition getitem {St V} (d : gmap string V) (key : string) : M St V :=
  match d !! key with
  | Some v => ret v
  | None => raise (KeyError key)
  end.

(** [logger.info(msg)]; the module sets the logger's level to INFO, so the
    record is emitted. *)
Definition logger_info {St} (msg : string) : M St unit :=
  fun s => (inr tt, s, [LogInfo msg]).

(** [e.response["Error"]["Code"]]: two dictionary lookups, either of which
    raises a key error when the entry is not there. *)
Definition error_code {St} (e : exn) : M St string :=
  match e with
  | ClientError code _ => ret code
  | ClientErrorNoCode missing _ => raise (KeyError missing)
  | _ => raise (AttributeError "Exception" "response")
  end.

(** The exception class [ec2_cli.<attr>.ClientError].  A botocore client has
    the property [exceptions]; any other name that is not an operation goes
    to the client's [__getattr__], which raises [AttributeError]. *)
Definition client_error_class {St} (attr : string) : M St pyclass :=
  if String.eqb attr "exceptions" then ret ClientErrorClass
  else raise (AttributeError "EC2" attr).

Section Handler.

Context {St : Type} (ec2_cli : Provider St).

Definition call_describe_snapshots (OwnerIds : list string) (DryRun : bool)
    : M St Response :=
  fun s =>
    match describe_snapshots ec2_cli OwnerIds DryRun s with
    | (r, s1) => (r, s1, [DescribeSnapshots OwnerIds DryRun])
    end.

Definition call_describe_volume_status (VolumeIds : list string)
    (DryRun : bool) : M St unit :=
  fun s =>
    match describe_volume_status ec2_cli VolumeIds DryRun s with
    | (raised, s1) =>
        (match raised with Some e => inl e | None => inr tt end,
         s1, [DescribeVolumeStatus VolumeIds DryRun raised])
    end.

Definition call_delete_snapshot (SnapshotId : string) : M St unit :=
  fun s =>
    match delete_snapshot ec2_cli SnapshotId s with
    | (raised, s1) =>
        (match raised with Some e => inl e | None => inr tt end,
         s1, [DeleteSnapshot SnapshotId raised])
    end.

(** The body of the first loop for one snapshot (lines 12-20): the
    volume-status call under [try], and the [except] clause that either
    appends to [snapshot_id] or raises again. *)
Definition check_snapshot (each_snapshot : Snapshot)
    (snapshot_id : list string) : M St (list string) :=
  try_except
    (let* VolumeId := getitem each_snapshot "VolumeId" in
     let* volume_stat := call_describe_volume_status [VolumeId] false in
     ret snapshot_id)
    (client_error_class "exceptions")
    (fun e =>
       let* code := error_code e in
       if String.eqb code "InvalidVolume.Notfound" then
         let* sid := getitem each_snapshot "snapshotid" in
         ret (snapshot_id ++ [sid])
       else raise e).

(** The first loop (lines 11-20), threading the list [snapshot_id]. *)
Fixpoint scan_snapshots (snapshots : list Snapshot)
    (snapshot_id : list string) : M St (list string) :=
  match snapshots with
  | [] => ret snapshot_id
  | each_snapshot :: rest =>
      let* snapshot_id' := check_snapshot each_snapshot snapshot_id in
      scan_snapshots rest snapshot_id'
  end.

(** The body of the second loop for one snapshot (lines 24-31); [Some r]
    is the [return r] of the [except] clause. *)
Definition delete_one (each_snap : string) : M St (option Result) :=
  try_except
    (let* _ := call_delete_snapshot each_snap in
     let* _ := logger_info ("Deleted SnapshotId " +:+ each_snap) in
     ret None)
    (client_error_class "exception")
    (fun e =>
       ret (Some {| statusCode := 500;
                    body := Some ("Error deleting snapshot " +:+ each_snap
                                  +:+ ": " +:+ exn_str e) |})).

(** The second loop (lines 23-31). *)
Fixpoint delete_snapshots (snapshot_id : list string)
    : M St (option Result) :=
  match snapshot_id with
  | [] => ret None
  | each_snap :: rest =>
      let* r := delete_one each_snap in
      match r with
      | Some res => ret (Some res)
      | None => delete_snapshots rest
      end
  end.

(** Lines 9-20: the listing and the first loop; the value is the list
    [snapshot_id] as it stands when the loop ends. *)
Definition collect_orphans : M St (list string) :=
  let* response := call_describe_snapshots ["self"%string] false in
  let* snapshots := getitem response "Snapshots" in
  scan_snapshots snapshots [].

(** Lines 22-32: [if snapshot_id:] guards the second loop; falling out of
    it returns [{"statusCode": 200}]. *)
Definition reap (snapshot_id : list string) : M St Result :=
  let* r := match snapshot_id with
            | [] => ret None
            | _ :: _ => delete_snapshots snapshot_id
            end in
  match r with
  | Some res => ret res
  | None => ret {| statusCode := 200; body := None |}
  end.

Definition lambda_handler {E C : Type} (event : E) (context : C)
    : M St Result :=
  let* snapshot_id := collect_orphans in
  reap snapshot_id.

End Handler.

(** ** Reading a run and its trace *)

Definition outcome {St A} (run : (exn + A) * St * list Event) : exn + A :=
  fst (fst run).

Definition final {St A} (run : (exn + A) * St * list Event) : St :=
  snd (fst run).

Definition trace {St A} (run : (exn + A) * St * list Event) : list Event :=
  snd run.

(** How the [except] clause of the first loop classifies what the status
    query raised: a [ClientError] (the class of the clause) whose code is
    the literal of line 17. *)
Definition volume_not_found (e : exn) : bool :=
  match e with
  | ClientError code _ => String.eqb code "InvalidVolume.Notfound"
  | _ => false
  end.

(** The exception is not a service error without a code: the lookup of
    line 17, when the [except] clause gets to it, finds the code. *)
Definition carries_code (e : exn) : bool :=
  match e with
  | ClientErrorNoCode _ _ => false
  | _ => true
  end.

(** What the [try] statement of the first loop ends with when the status
    query raised [e] and the handler does not take [e] for a missing
    volume: [e] itself, which the clause does not catch or line 20 raises
    again, or the key error of line 17 when [e] is a service error without
    a code. *)
Definition except_raises (e : exn) : exn :=
  match e with
  | ClientErrorNoCode missing _ => KeyError missing
  | _ => e
  end.

(** A record keyed as the service keys it: the identifier is under
    ["SnapshotId"], and there is no entry ["snapshotid"]. *)
Definition aws_keyed (r : Snapshot) : Prop :=
  is_Some (r !! "SnapshotId") /\ r !! "snapshotid" = None.

Definition ok_200 : Result := {| statusCode := 200; body := None |}.

Definition deleted_record (sid : string) : string :=
  "Deleted SnapshotId " +:+ sid.

(** The identifiers passed to [delete_snapshot], in call order. *)
Fixpoint delete_calls (t : list Event) : list string :=
  match t with
  | [] => []
  | DeleteSnapshot sid _ :: t' => sid :: delete_calls t'
  | _ :: t' => delete_calls t'
  end.

(** The identifiers whose [delete_snapshot] call returned normally. *)
Fixpoint deleted (t : list Event) : list string :=
  match t with
  | [] => []
  | DeleteSnapshot sid None :: t' => sid :: deleted t'
  | _ :: t' => deleted t'
  end.

(** What the volume-status queries raised, in call order. *)
Fixpoint status_faults (t : list Event) : list exn :=
  match t with
  | [] => []
  | DescribeVolumeStatus _ _ (Some e) :: t' => e :: status_faults t'
  | _ :: t' => status_faults t'
  end.

(** The deletions that raised: the identifier and the exception. *)
Fixpoint delete_faults (t : list Event) : list (string * exn) :=
  match t with
  | [] => []
  | DeleteSnapshot sid (Some e) :: t' => (sid, e) :: delete_faults t'
  | _ :: t' => delete_faults t'
  end.

(** The records sent to the logger, in order. *)
Fixpoint log_records (t : list Event) : list string :=
  match t with
  | [] => []
  | LogInfo msg :: t' => msg :: log_records t'
  | _ :: t' => log_records t'
  end.

(** ** A model account *)

(** Modelled from the spec: the EC2 service itself, which is not part of the
    repository.  An account holds the snapshot records its listing returns,
    and says for each volume identifier whether the status query raises and
    for each snapshot identifier whether its deletion is refused.  A deleted
    snapshot leaves the listing; nothing else ever changes it. *)
Record Account : Type := mkAccount {
  acct_snapshots : list Snapshot;
  acct_volume_fault : string -> option exn;
  acct_delete_fault : string -> option exn
}.

Fixpoint first_fault (fault : string -> option exn) (ids : list string)
    : option exn :=
  match ids with
  | [] => None
  | i :: rest =>
      match fault i with
      | Some e => Some e
      | None => first_fault fault rest
      end
  end.

(** The record is the snapshot the service knows under [sid]. *)
Definition has_id (sid : string) (r : Snapshot) : bool :=
  match r !! "SnapshotId" with
  | Some i => String.eqb i sid
  | None => false
  end.

Definition dry_run_error : exn :=
  ClientError "DryRunOperation"
    "Request would have succeeded, but DryRun flag is set.".

Definition account_describe_snapshots (OwnerIds : list string)
    (DryRun : bool) (a : Account) : (exn + Response) * Account :=
  if DryRun then (inl dry_run_error, a)
  else (inr {[ "Snapshots" := acct_snapshots a ]}, a).

Definition account_describe_volume_status (VolumeIds : list string)
    (DryRun : bool) (a : Account) : option exn * Account :=
  match first_fault (acct_volume_fault a) VolumeIds with
  | Some e => (Some e, a)
  | None => if DryRun then (Some dry_run_error, a) else (None, a)
  end.

Definition account_delete_snapshot (SnapshotId : string) (a : Account)
    : option exn * Account :=
  match acct_delete_fault a SnapshotId with
  | Some e => (Some e, a)
  | None =>
      if existsb (has_id SnapshotId) (acct_snapshots a) then
        (None,
         {| acct_snapshots :=
              List.filter (fun r => negb (has_id SnapshotId r))
                          (acct_snapshots a);
            acct_volume_fault := acct_volume_fault a;
            acct_delete_fault := acct_delete_fault a |})
      else
        (Some (ClientError "InvalidSnapshot.NotFound"
                 ("The snapshot '" +:+ SnapshotId +:+ "' does not exist.")),
         a)
  end.

Definition account : Provider Account :=
  {| describe_snapshots := account_describe_snapshots;
     describe_volume_status := account_describe_volume_status;
     delete_snapshot := account_delete_snapshot |}.

(** The entry ["snapshotid"] of the record, when it has one, is the
    identifier the service knows the snapshot under. *)
Definition id_consistent (r : Snapshot) : bool :=
  match r !! "snapshotid" with
  | Some sid => has_id sid r
  | None => true
  end.

(** The record names a volume whose status query returns. *)
Definition quiet (a : Account) (r : Snapshot) : Prop :=
  exists v, r !! "VolumeId" = Some v /\ acct_volume_fault a v = None.

(** The record names a volume whose status query returns, or it has an
    entry ["snapshotid"] that is in the list [l]. *)
Definition settled (a : Account) (l : list string) (r : Snapshot) : Prop :=
  exists v, r !! "VolumeId" = Some v /\
    (acct_volume_fault a v = None \/
     exists sid, r !! "snapshotid" = Some sid /\ sid ∈ l).

(** One invocation against an account: the outcome, the account it leaves
    and the trace.  The trigger payload and the context are [tt]. *)
Definition invoke (a : Account) : (exn + Result) * Account * list Event :=
  lambda_handler account tt tt a.

(** *** Sample accounts *)

(** A record as the service returns it. *)
Definition aws_snapshot (sid vid : string) : Snapshot :=
  {[ "SnapshotId" := sid; "VolumeId" := vid ]}.

(** A record that also carries its identifier under the key the handler
    reads. *)
Definition keyed_snapshot (sid vid : string) : Snapshot :=
  <[ "snapshotid" := sid ]> (aws_snapshot sid vid).

Definition not_found (code : string) : exn :=
  ClientError code
    ("An error occurred (" +:+ code +:+ ") when calling the "
     +:+ "DescribeVolumeStatus operation: The volume does not exist.").

Definition access_denied : exn :=
  ClientError "UnauthorizedOperation"
    ("An error occurred (UnauthorizedOperation) when calling the "
     +:+ "DeleteSnapshot operation: You are not authorized to perform "
     +:+ "this operation.").

(** The volumes in [missing] answer the status query with [e]. *)
Definition missing_volumes (missing : list string) (e : exn)
    (vid : string) : option exn :=
  if existsb (String.eqb vid) missing then Some e else None.

Definition refused (sids : list string) (e : exn) (sid : string)
    : option exn :=
  if existsb (String.eqb sid) sids then Some e else None.

(** An account in which the volumes [vol-1] and [vol-3] answer the status
    query with [e], and the deletion of the snapshots in [locked] is
    refused. *)
Definition demo (snaps : list Snapshot) (e : exn) (locked : list string)
    : Account :=
  {| acct_snapshots := snaps;
     acct_volume_fault := missing_volumes ["vol-1"; "vol-3"]%string e;
     acct_delete_fault := refused locked access_denied |}.

Definition three (mk : string -> string -> Snapshot) : list Snapshot :=
  [mk "snap-1" "vol-1"; mk "snap-2" "vol-2"; mk "snap-3" "vol-3"]%string.

Definition timed_out : exn :=
  OtherError "Connect timeout on endpoint URL".

(** Records as the service returns them; the status query of a missing
    volume times out. *)
Definition account_timeout : Account :=
  demo (three aws_snapshot) timed_out [].

(** Records as the service returns them; a missing volume is reported with
    the service's own error code. *)
Definition account_aws : Account :=
  demo (three aws_snapshot) (not_found "InvalidVolume.NotFound") [].

(** Records as the service returns them; a missing volume is reported with
    the code the handler compares against. *)
Definition account_literal : Account :=
  demo (three aws_snapshot) (not_found "InvalidVolume.Notfound") [].

(** Records that carry the key the handler reads; every deletion goes
    through. *)
Definition account_keyed : Account :=
  demo (three keyed_snapshot) (not_found "InvalidVolume.Notfound") [].

(** The same, but the deletion of [snap-3] is refused. *)
Definition account_locked : Account :=
  demo (three keyed_snapshot) (not_found "InvalidVolume.Notfound")
       ["snap-3"%string].

(** A service error whose response has no entry ["Error"]. *)
Definition codeless : exn :=
  ClientErrorNoCode "Error"
    ("An error occurred (Unknown) when calling the DescribeVolumeStatus "
     +:+ "operation: Unknown").

(** Records as the service returns them; the status query of a missing
    volume raises a service error without a code. *)
Definition account_codeless : Account :=
  demo (three aws_snapshot) codeless [].

(** No volume is missing. *)
Definition account_clean : Account :=
  {| acct_snapshots := three aws_snapshot;
     acct_volume_fault := fun _ => None;
     acct_delete_fault := fun _ => None |}.

(** The volume of the only snapshot cannot be queried. *)
Definition account_unauthorized : Account :=
  {| acct_snapshots := [aws_snapshot "snap-1" "vol-1"];
     acct_volume_fault :=
       missing_volumes ["vol-1"%string]
         (ClientError "UnauthorizedOperation"
            "You are not authorized to perform this operation.");
     acct_delete_fault := fun _ => None |}.


(** ** Further readings of a trace *)

(** The volume identifiers the status queries were made for, in call
    order. *)
Fixpoint queried_volumes (t : list Event) : list string :=
  match t with
  | [] => []
  | DescribeVolumeStatus VolumeIds _ _ :: t' =>
      VolumeIds ++ queried_volumes t'
  | _ :: t' => queried_volumes t'
  end.

(** What each status query did, in call order: [None] when it returned,
    the exception when it raised. *)
Fixpoint query_results (t : list Event) : list (option exn) :=
  match t with
  | [] => []
  | DescribeVolumeStatus _ _ raised :: t' => raised :: query_results t'
  | _ :: t' => query_results t'
  end.

(** The ["snapshotid"] entries of the records whose status query raised,
    the records and the results of the queries being taken side by side. *)
Fixpoint marked (snapshots : list Snapshot) (results : list (option exn))
    : list string :=
  match snapshots, results with
  | r :: snapshots', Some _ :: results' =>
      match r !! "snapshotid" with
      | Some sid => sid :: marked snapshots' results'
      | None => marked snapshots' results'
      end
  | _ :: snapshots', None :: results' => marked snapshots' results'
  | _, _ => []
  end.

(** A status query as the first loop makes it: one volume identifier, not a
    dry run. *)
Definition real_status_query (ev : Event) : bool :=
  match ev with
  | DescribeVolumeStatus [_] false _ => true
  | _ => false
  end.

(** An event of the second loop: a deletion call or a log record. *)
Definition deletion_event (ev : Event) : bool :=
  match ev with
  | DeleteSnapshot _ _ | LogInfo _ => true
  | _ => false
  end.

(** The two events of a deletion that returned, and the event of one that
    raised. *)
Definition deletion_done (sid : string) : list Event :=
  [DeleteSnapshot sid None; LogInfo (deleted_record sid)].

Definition deletion_raised (fault : string * exn) : Event :=
  DeleteSnapshot (fst fault) (Some (snd fault)).

(** ** Further sample providers *)

Definition unreachable : exn :=
  OtherError "Could not connect to the endpoint URL".

(** A client with no route to the service: every call raises. *)
Definition offline : Provider unit :=
  {| describe_snapshots := fun _ _ s => (inl unreachable, s);
     describe_volume_status := fun _ _ s => (Some unreachable, s);
     delete_snapshot := fun _ s => (Some unreachable, s) |}.

(** A service whose listing response has no entry ["Snapshots"]. *)
Definition bare_listing : Provider unit :=
  {| describe_snapshots := fun _ _ s => (inr ∅, s);
     describe_volume_status := fun _ _ s => (None, s);
     delete_snapshot := fun _ s => (None, s) |}.

(** The second record of the listing names no volume. *)
Definition account_no_volume : Account :=
  {| acct_snapshots :=
       [aws_snapshot "snap-2" "vol-2"; {[ "SnapshotId" := "snap-9" ]};
        aws_snapshot "snap-3" "vol-3"]%string;
     acct_volume_fault :=
       missing_volumes ["vol-3"%string] (not_found "InvalidVolume.Notfound");
     acct_delete_fault := fun _ => None |}.

(** * Properties *)

(** ** One iteration of each loop *)

Section Steps.

Context {St : Type} (ec2_cli : Provider St).

Lemma check_snapshot_no_volume each_snapshot snapshot_id s :
  each_snapshot !! "VolumeId" = None ->
  check_snapshot ec2_cli each_snapshot snapshot_id s
  = (inl (KeyError "VolumeId"), s, []).
Proof.
  intros Hv. unfold check_snapshot, try_except, bind, getitem.
  rewrite Hv. reflexivity.
Qed.

Lemma check_snapshot_present each_snapshot snapshot_id s v s1 :
  each_snapshot !! "VolumeId" = Some v ->
  describe_volume_status ec2_cli [v] false s = (None, s1) ->
  check_snapshot ec2_cli each_snapshot snapshot_id s
  = (inr snapshot_id, s1, [DescribeVolumeStatus [v] false None]).
Proof.
  intros Hv Hq.
  unfold check_snapshot, try_except, bind, getitem,
    call_describe_volume_status.
  rewrite Hv. cbn. rewrite Hq. reflexivity.
Qed.

Lemma check_snapshot_raised each_snapshot snapshot_id s v e s1 :
  each_snapshot !! "VolumeId" = Some v ->
  describe_volume_status ec2_cli [v] false s = (Some e, s1) ->
  check_snapshot ec2_cli each_snapshot snapshot_id s
  = (if volume_not_found e then
       match each_snapshot !! "snapshotid" with
       | Some sid => inr (snapshot_id ++ [sid])
       | None => inl (KeyError "snapshotid")
       end
     else inl (except_raises e),
     s1, [DescribeVolumeStatus [v] false (Some e)]).
Proof.
  intros Hv Hq.
  unfold check_snapshot, try_except, bind, getitem,
    call_describe_volume_status.
  rewrite Hv. cbn. rewrite Hq. cbn.
  destruct e as [code text | missing text | key | obj attr | text]; cbn;
    try reflexivity.
  destruct (String.eqb code "InvalidVolume.Notfound"); cbn; [|reflexivity].
  destruct (each_snapshot !! "snapshotid"); reflexivity.
Qed.

Lemma delete_one_done each_snap s s1 :
  delete_snapshot ec2_cli each_snap s = (None, s1) ->
  delete_one ec2_cli each_snap s
  = (inr None, s1,
     [DeleteSnapshot each_snap None; LogInfo (deleted_record each_snap)]).
Proof.
  intros Hd. unfold delete_one, try_except, bind, call_delete_snapshot.
  rewrite Hd. reflexivity.
Qed.

Lemma delete_one_raised each_snap s e s1 :
  delete_snapshot ec2_cli each_snap s = (Some e, s1) ->
  delete_one ec2_cli each_snap s
  = (inl (AttributeError "EC2" "exception"), s1,
     [DeleteSnapshot each_snap (Some e)]).
Proof.
  intros Hd. unfold delete_one, try_except, bind, call_delete_snapshot.
  rewrite Hd. reflexivity.
Qed.

End Steps.

(** ** Traces *)

Lemma delete_calls_app t1 t2 :
  delete_calls (t1 ++ t2) = delete_calls t1 ++ delete_calls t2.
Proof.
  induction t1 as [|[| | |] t1 IH]; cbn; rewrite ?IH; reflexivity.
Qed.

Lemma deleted_app t1 t2 : deleted (t1 ++ t2) = deleted t1 ++ deleted t2.
Proof.
  induction t1 as [|[| | sid [e|] |] t1 IH]; cbn; rewrite ?IH; reflexivity.
Qed.

Lemma log_records_app t1 t2 :
  log_records (t1 ++ t2) = log_records t1 ++ log_records t2.
Proof.
  induction t1 as [|[| | |] t1 IH]; cbn; rewrite ?IH; reflexivity.
Qed.

Lemma status_faults_app t1 t2 :
  status_faults (t1 ++ t2) = status_faults t1 ++ status_faults t2.
Proof.
  induction t1 as [|[| vs d [e|] | |] t1 IH]; cbn; rewrite ?IH; reflexivity.
Qed.

Lemma delete_faults_app t1 t2 :
  delete_faults (t1 ++ t2) = delete_faults t1 ++ delete_faults t2.
Proof.
  induction t1 as [|[| | sid [e|] |] t1 IH]; cbn; rewrite ?IH; reflexivity.
Qed.

(** ** The two loops *)

Section Loops.

Context {St : Type} (ec2_cli : Provider St).

Lemma scan_snapshots_cons each_snapshot rest snapshot_id s :
  scan_snapshots ec2_cli (each_snapshot :: rest) snapshot_id s
  = match check_snapshot ec2_cli each_snapshot snapshot_id s with
    | (inl e, s1, t1) => (inl e, s1, t1)
    | (inr snapshot_id', s1, t1) =>
        match scan_snapshots ec2_cli rest snapshot_id' s1 with
        | (r, s2, t2) => (r, s2, t1 ++ t2)
        end
    end.
Proof. reflexivity. Qed.

Lemma delete_snapshots_cons each_snap rest s :
  delete_snapshots ec2_cli (each_snap :: rest) s
  = match delete_one ec2_cli each_snap s with
    | (inl e, s1, t1) => (inl e, s1, t1)
    | (inr (Some res), s1, t1) => (inr (Some res), s1, t1 ++ [])
    | (inr None, s1, t1) =>
        match delete_snapshots ec2_cli rest s1 with
        | (r, s2, t2) => (r, s2, t1 ++ t2)
        end
    end.
Proof.
  cbn [delete_snapshots]. unfold bind.
  destruct (delete_one ec2_cli each_snap s) as [[[e|[res|]] s1] t1];
    reflexivity.
Qed.

(** Case analysis on one iteration of the first loop, by the three step
    lemmas. *)
Ltac scan_step each s :=
  let v := fresh "v" in
  let Hv := fresh "Hv" in
  let Hq := fresh "Hq" in
  let e := fresh "e" in
  let s1 := fresh "s1" in
  rewrite scan_snapshots_cons;
  destruct (each !! "VolumeId") as [v|] eqn:Hv;
  [ destruct (describe_volume_status ec2_cli [v] false s)
      as [[e|] s1] eqn:Hq;
    [ rewrite (check_snapshot_raised ec2_cli _ _ _ _ _ _ Hv Hq)
    | rewrite (check_snapshot_present ec2_cli _ _ _ _ _ Hv Hq) ]
  | rewrite (check_snapshot_no_volume ec2_cli _ _ _ Hv) ].

(** The first loop deletes nothing and logs nothing. *)
Lemma scan_snapshots_quiet snapshots : forall snapshot_id s,
  let run := scan_snapshots ec2_cli snapshots snapshot_id s in
  delete_calls (trace run) = [] /\ log_records (trace run) = [].
Proof.
  induction snapshots as [|each rest IH]; intros acc s; [split; reflexivity|].
  cbv zeta. scan_step each s.
  - destruct (volume_not_found e); [destruct (each !! "snapshotid")|];
      try (split; reflexivity).
    specialize (IH (acc ++ [s0]) s1).
    destruct (scan_snapshots ec2_cli rest (acc ++ [s0]) s1) as [[r s2] t2].
    exact IH.
  - specialize (IH acc s1).
    destruct (scan_snapshots ec2_cli rest acc s1) as [[r s2] t2].
    exact IH.
  - split; reflexivity.
Qed.

(** A status query that raises anything but what the handler takes for a
    missing volume ends the loop with an exception: the one raised, or the
    key error of the code lookup. *)
Lemma scan_snapshots_fault snapshots : forall snapshot_id s e,
  let run := scan_snapshots ec2_cli snapshots snapshot_id s in
  e ∈ status_faults (trace run) ->
  volume_not_found e = false ->
  outcome run = inl (except_raises e).
Proof.
  induction snapshots as [|each rest IH]; intros acc s e0; cbv zeta.
  - cbn. intros H. inversion H.
  - scan_step each s.
    + destruct (volume_not_found e) eqn:Hnf;
        [destruct (each !! "snapshotid") as [sid|]|].
      * specialize (IH (acc ++ [sid]) s1 e0).
        destruct (scan_snapshots ec2_cli rest (acc ++ [sid]) s1)
          as [[r s2] t2].
        cbn in *. intros [->|Hin]%elem_of_cons Hne; [congruence|auto].
      * cbn. intros [->|Hin]%elem_of_cons Hne; [congruence|inversion Hin].
      * cbn. intros [->|Hin]%elem_of_cons Hne; [reflexivity|inversion Hin].
    + specialize (IH acc s1 e0).
      destruct (scan_snapshots ec2_cli rest acc s1) as [[r s2] t2].
      exact IH.
    + cbn. intros H. inversion H.
Qed.

(** On records without the key ["snapshotid"], a status query taken for a
    missing volume ends the loop with a key error. *)
Lemma scan_snapshots_key_error snapshots : forall snapshot_id s e,
  Forall (fun r : Snapshot => r !! "snapshotid" = None) snapshots ->
  let run := scan_snapshots ec2_cli snapshots snapshot_id s in
  e ∈ status_faults (trace run) ->
  volume_not_found e = true ->
  outcome run = inl (KeyError "snapshotid").
Proof.
  induction snapshots as [|each rest IH]; intros acc s e0 Hkeys; cbv zeta.
  - cbn. intros H. inversion H.
  - apply Forall_cons in Hkeys as [Hk Hkeys].
    scan_step each s.
    + rewrite Hk.
      destruct (volume_not_found e) eqn:Hnf; cbn.
      * reflexivity.
      * intros [->|Hin]%elem_of_cons Hne; [congruence|inversion Hin].
    + specialize (IH acc s1 e0 Hkeys).
      destruct (scan_snapshots ec2_cli rest acc s1) as [[r s2] t2].
      exact IH.
    + cbn. intros H. inversion H.
Qed.

(** The list the first loop returns extends the one it started from, by
    ["snapshotid"] entries of the listing, in listing order. *)
Lemma scan_snapshots_order snapshots : forall snapshot_id s l,
  outcome (scan_snapshots ec2_cli snapshots snapshot_id s) = inr l ->
  exists l', l = snapshot_id ++ l' /\
    sublist l' (omap (fun r : Snapshot => r !! "snapshotid") snapshots).
Proof.
  induction snapshots as [|each rest IH]; intros acc s l.
  - cbn. intros [= <-]. exists []. rewrite app_nil_r. split; constructor.
  - scan_step each s.
    + destruct (volume_not_found e); [destruct (each !! "snapshotid")
        as [sid|] eqn:Hk|]; try (cbn; discriminate).
      specialize (IH (acc ++ [sid]) s1 l).
      destruct (scan_snapshots ec2_cli rest (acc ++ [sid]) s1)
        as [[r s2] t2].
      cbn in *. intros Hr. destruct (IH Hr) as (l' & -> & Hsub).
      exists (sid :: l'). rewrite <- app_assoc. split; [reflexivity|].
      rewrite Hk. by apply sublist_skip.
    + specialize (IH acc s1 l).
      destruct (scan_snapshots ec2_cli rest acc s1) as [[r s2] t2].
      cbn in *. intros Hr. destruct (IH Hr) as (l' & -> & Hsub).
      exists l'. split; [reflexivity|].
      destruct (each !! "snapshotid"); [by apply sublist_cons|done].
    + cbn. discriminate.
Qed.

End Loops.

Section DeleteLoop.

Context {St : Type} (ec2_cli : Provider St).

Ltac delete_step each s :=
  let Hd := fresh "Hd" in
  let e := fresh "e" in
  let s1 := fresh "s1" in
  rewrite delete_snapshots_cons;
  destruct (delete_snapshot ec2_cli each s) as [[e|] s1] eqn:Hd;
  [ rewrite (delete_one_raised ec2_cli _ _ _ _ Hd)
  | rewrite (delete_one_done ec2_cli _ _ _ Hd) ].

(** The second loop makes no status query. *)
Lemma delete_snapshots_quiet snapshot_id : forall s,
  status_faults (trace (delete_snapshots ec2_cli snapshot_id s)) = [].
Proof.
  induction snapshot_id as [|each rest IH]; intros s; [reflexivity|].
  delete_step each s; [reflexivity|].
  specialize (IH s1).
  destruct (delete_snapshots ec2_cli rest s1) as [[r s2] t2]. exact IH.
Qed.

(** One log record per deletion that returned, naming its identifier. *)
Lemma delete_snapshots_log snapshot_id : forall s,
  let run := delete_snapshots ec2_cli snapshot_id s in
  log_records (trace run) = map deleted_record (deleted (trace run)).
Proof.
  induction snapshot_id as [|each rest IH]; intros s; [reflexivity|].
  cbv zeta. delete_step each s; [reflexivity|].
  specialize (IH s1).
  destruct (delete_snapshots ec2_cli rest s1) as [[r s2] t2].
  cbn in *. by rewrite IH.
Qed.

(** The deletions are attempted in list order, one call per element, up to
    the point where the loop stops. *)
Lemma delete_snapshots_prefix snapshot_id : forall s,
  exists rest,
    snapshot_id
    = delete_calls (trace (delete_snapshots ec2_cli snapshot_id s)) ++ rest.
Proof.
  induction snapshot_id as [|each rest IH]; intros s; [by exists []|].
  delete_step each s; [by exists rest|].
  destruct (IH s1) as [rest' Hrest].
  destruct (delete_snapshots ec2_cli rest s1) as [[r s2] t2].
  cbn in *. exists rest'. by rewrite <- Hrest.
Qed.

(** How the second loop ends: it falls through after deleting the whole
    list, or the first deletion that raises ends it there, with the
    attribute error of the [except] clause; it never reaches the [return]
    of that clause. *)
Lemma delete_snapshots_outcome snapshot_id : forall s,
  let run := delete_snapshots ec2_cli snapshot_id s in
  match outcome run with
  | inr None =>
      delete_faults (trace run) = [] /\ deleted (trace run) = snapshot_id
  | inr (Some _) => False
  | inl e =>
      e = AttributeError "EC2" "exception" /\
      exists sid e',
        delete_faults (trace run) = [(sid, e')] /\
        delete_calls (trace run) = deleted (trace run) ++ [sid]
  end.
Proof.
  induction snapshot_id as [|each rest IH]; intros s; [by split|].
  cbv zeta. delete_step each s.
  - split; [reflexivity|]. by exists each, e.
  - specialize (IH s1). cbv zeta in IH.
    destruct (delete_snapshots ec2_cli rest s1) as [[[e|[res|]] s2] t2];
      cbn in *; [|done|].
    + destruct IH as (-> & sid & e' & Hf & Hc).
      split; [reflexivity|]. exists sid, e'. by rewrite Hf, Hc.
    + destruct IH as [Hf ->]. by rewrite Hf.
Qed.

End DeleteLoop.

(** ** The handler as the sequence of its two phases *)

Section Phases.

Context {St : Type} (ec2_cli : Provider St).

Lemma collect_orphans_eq s :
  collect_orphans ec2_cli s
  = match describe_snapshots ec2_cli ["self"%string] false s with
    | (inl e, s0) => (inl e, s0, [DescribeSnapshots ["self"%string] false])
    | (inr response, s0) =>
        match response !! "Snapshots" with
        | None =>
            (inl (KeyError "Snapshots"), s0,
             [DescribeSnapshots ["self"%string] false])
        | Some snapshots =>
            match scan_snapshots ec2_cli snapshots [] s0 with
            | (r, s1, t1) =>
                (r, s1, DescribeSnapshots ["self"%string] false :: t1)
            end
        end
    end.
Proof.
  unfold collect_orphans, bind, call_describe_snapshots, getitem.
  destruct (describe_snapshots ec2_cli ["self"%string] false s)
    as [[e|response] s0]; [reflexivity|].
  destruct (response !! "Snapshots") as [snapshots|]; [|reflexivity].
  cbn. destruct (scan_snapshots ec2_cli snapshots [] s0) as [[r s1] t1].
  reflexivity.
Qed.

Lemma reap_eq snapshot_id s :
  reap ec2_cli snapshot_id s
  = match snapshot_id with
    | [] => (inr ok_200, s, [])
    | _ :: _ =>
        match delete_snapshots ec2_cli snapshot_id s with
        | (inl e, s1, t) => (inl e, s1, t)
        | (inr (Some res), s1, t) => (inr res, s1, t ++ [])
        | (inr None, s1, t) => (inr ok_200, s1, t ++ [])
        end
    end.
Proof.
  unfold reap, bind. destruct snapshot_id as [|each rest]; [reflexivity|].
  destruct (delete_snapshots ec2_cli (each :: rest) s)
    as [[[e|[res|]] s1] t]; reflexivity.
Qed.

Lemma lambda_handler_eq {E C : Type} (event : E) (context : C) s :
  lambda_handler ec2_cli event context s
  = match collect_orphans ec2_cli s with
    | (inl e, s1, t1) => (inl e, s1, t1)
    | (inr snapshot_id, s1, t1) =>
        match reap ec2_cli snapshot_id s1 with
        | (r, s2, t2) => (r, s2, t1 ++ t2)
        end
    end.
Proof. reflexivity. Qed.

End Phases.

(** ** What a whole invocation does *)

Section Invocation.

Context {St : Type} (ec2_cli : Provider St).

Lemma delete_calls_nil t :
  delete_calls t = [] -> deleted t = [] /\ delete_faults t = [].
Proof.
  induction t as [|[| | sid [e|] |] t IH]; cbn; intros H;
    try discriminate; auto.
Qed.

(** The listing and the first loop delete nothing and log nothing. *)
Lemma collect_orphans_quiet s :
  delete_calls (trace (collect_orphans ec2_cli s)) = [] /\
  log_records (trace (collect_orphans ec2_cli s)) = [].
Proof.
  rewrite collect_orphans_eq.
  destruct (describe_snapshots ec2_cli ["self"%string] false s)
    as [[e|response] s0]; [by split|].
  destruct (response !! "Snapshots") as [snapshots|]; [|by split].
  pose proof (scan_snapshots_quiet ec2_cli snapshots [] s0) as Hq.
  destruct (scan_snapshots ec2_cli snapshots [] s0) as [[r s1] t1].
  exact Hq.
Qed.

(** The second phase makes no status query. *)
Lemma reap_quiet snapshot_id s :
  status_faults (trace (reap ec2_cli snapshot_id s)) = [].
Proof.
  rewrite reap_eq. destruct snapshot_id as [|each rest]; [reflexivity|].
  pose proof (delete_snapshots_quiet ec2_cli (each :: rest) s) as Hq.
  destruct (delete_snapshots ec2_cli (each :: rest) s)
    as [[[e|[res|]] s1] t]; cbn in *; by rewrite ?app_nil_r.
Qed.

(** When the first phase raises, the invocation is that phase. *)
Lemma lambda_handler_aborted {E C : Type} (event : E) (context : C) s e :
  outcome (collect_orphans ec2_cli s) = inl e ->
  lambda_handler ec2_cli event context s
  = (inl e, final (collect_orphans ec2_cli s),
     trace (collect_orphans ec2_cli s)).
Proof.
  rewrite lambda_handler_eq.
  destruct (collect_orphans ec2_cli s) as [[[e'|l] s1] t1]; cbn;
    [by intros [= ->]|discriminate].
Qed.

(** The status queries of an invocation are those of its first phase. *)
Lemma lambda_handler_status_faults {E C : Type} (event : E) (context : C) s :
  status_faults (trace (lambda_handler ec2_cli event context s))
  = status_faults (trace (collect_orphans ec2_cli s)).
Proof.
  rewrite lambda_handler_eq.
  destruct (collect_orphans ec2_cli s) as [[[e|l] s1] t1]; [reflexivity|].
  pose proof (reap_quiet l s1) as Hq.
  destruct (reap ec2_cli l s1) as [[r s2] t2]. cbn in *.
  by rewrite status_faults_app, Hq, app_nil_r.
Qed.

Lemma collect_orphans_fault s e :
  e ∈ status_faults (trace (collect_orphans ec2_cli s)) ->
  volume_not_found e = false ->
  outcome (collect_orphans ec2_cli s) = inl (except_raises e).
Proof.
  rewrite collect_orphans_eq.
  destruct (describe_snapshots ec2_cli ["self"%string] false s)
    as [[e'|response] s0]; [cbn; intros H; inversion H|].
  destruct (response !! "Snapshots") as [snapshots|];
    [|cbn; intros H; inversion H].
  pose proof (scan_snapshots_fault ec2_cli snapshots [] s0 e) as Hf.
  destruct (scan_snapshots ec2_cli snapshots [] s0) as [[r s1] t1].
  exact Hf.
Qed.

(** A status query that raises anything but what the handler takes for a
    missing volume ends the invocation with an exception, before any
    deletion: the one raised, or the key error of the code lookup. *)
Lemma lambda_handler_fault {E C : Type} (event : E) (context : C) s e :
  e ∈ status_faults (trace (lambda_handler ec2_cli event context s)) ->
  volume_not_found e = false ->
  outcome (collect_orphans ec2_cli s) = inl (except_raises e) /\
  outcome (lambda_handler ec2_cli event context s)
  = inl (except_raises e) /\
  delete_calls (trace (lambda_handler ec2_cli event context s)) = [] /\
  log_records (trace (lambda_handler ec2_cli event context s)) = [].
Proof.
  rewrite lambda_handler_status_faults. intros Hin Hnf.
  pose proof (collect_orphans_fault s e Hin Hnf) as Hout.
  rewrite (lambda_handler_aborted event context s _ Hout).
  split; [exact Hout|]. split; [reflexivity|]. apply collect_orphans_quiet.
Qed.

(** An invocation whose first phase returned the list [snapshot_id]. *)
Lemma lambda_handler_reaps {E C : Type} (event : E) (context : C)
    s snapshot_id s1 t1 :
  collect_orphans ec2_cli s = (inr snapshot_id, s1, t1) ->
  lambda_handler ec2_cli event context s
  = (outcome (reap ec2_cli snapshot_id s1),
     final (reap ec2_cli snapshot_id s1),
     t1 ++ trace (reap ec2_cli snapshot_id s1)) /\
  delete_calls t1 = [] /\ log_records t1 = [].
Proof.
  intros Hc. pose proof (collect_orphans_quiet s) as Hq.
  rewrite lambda_handler_eq, Hc. rewrite Hc in Hq.
  destruct (reap ec2_cli snapshot_id s1) as [[r s2] t2]. by split.
Qed.

(** The second phase in terms of the second loop. *)
Lemma reap_spec snapshot_id s :
  let run := reap ec2_cli snapshot_id s in
  (exists rest, snapshot_id = delete_calls (trace run) ++ rest) /\
  log_records (trace run) = map deleted_record (deleted (trace run)) /\
  match outcome run with
  | inr res =>
      res = ok_200 /\ delete_faults (trace run) = [] /\
      deleted (trace run) = snapshot_id
  | inl e =>
      e = AttributeError "EC2" "exception" /\
      exists sid e',
        delete_faults (trace run) = [(sid, e')] /\
        delete_calls (trace run) = deleted (trace run) ++ [sid]
  end.
Proof.
  cbv zeta. rewrite reap_eq.
  destruct snapshot_id as [|each rest]; [by split; [exists []|]|].
  pose proof (delete_snapshots_prefix ec2_cli (each :: rest) s) as Hp.
  pose proof (delete_snapshots_log ec2_cli (each :: rest) s) as Hl.
  pose proof (delete_snapshots_outcome ec2_cli (each :: rest) s) as Ho.
  cbv zeta in Hl, Ho.
  destruct (delete_snapshots ec2_cli (each :: rest) s)
    as [[[e|[res|]] s1] t]; cbn in *; rewrite ?app_nil_r; [done|done|].
  by destruct Ho.
Qed.

End Invocation.

(** * Properties of the specification *)

Section Claims.

Context {St : Type} (ec2_cli : Provider St).
Context {E C : Type} (event : E) (context : C).

(** C2, as amended. When some volume-status query of an invocation fails
    with anything other than what the handler takes for "volume not
    found", the invocation ends with an exception, and its trace holds no
    deletion call and no log record; the exception is the one the query
    raised whenever that one is not a service error without a code. *)
Theorem C2_other_check_failure_aborts s e :
  e ∈ status_faults (trace (lambda_handler ec2_cli event context s)) ->
  volume_not_found e = false ->
  (exists e', outcome (lambda_handler ec2_cli event context s) = inl e') /\
  delete_calls (trace (lambda_handler ec2_cli event context s)) = [] /\
  log_records (trace (lambda_handler ec2_cli event context s)) = [] /\
  (carries_code e = true ->
   outcome (lambda_handler ec2_cli event context s) = inl e).
Proof.
  intros Hin Hnf.
  destruct (lambda_handler_fault ec2_cli event context s e Hin Hnf)
    as (_ & Ho & Hd & Hl).
  split; [by eexists|]. split; [exact Hd|]. split; [exact Hl|].
  intros Hcode. rewrite Ho. by destruct e.
Qed.

(** C9. The handler takes a [ClientError] for "volume not found" exactly
    when its code is the string ["InvalidVolume.Notfound"], character for
    character.  A status query that raises a [ClientError] with any other
    code, the service's spelling ["InvalidVolume.NotFound"] included, ends
    the invocation with that exception: no list of orphans is produced and
    nothing is deleted. *)
Theorem C9_not_found_code_is_exact s code text :
  code <> "InvalidVolume.Notfound"%string ->
  ClientError code text
    ∈ status_faults (trace (lambda_handler ec2_cli event context s)) ->
  (forall c t, volume_not_found (ClientError c t) = true
               <-> c = "InvalidVolume.Notfound"%string) /\
  volume_not_found (ClientError "InvalidVolume.NotFound" text) = false /\
  outcome (collect_orphans ec2_cli s) = inl (ClientError code text) /\
  outcome (lambda_handler ec2_cli event context s)
  = inl (ClientError code text) /\
  delete_calls (trace (lambda_handler ec2_cli event context s)) = [].
Proof.
  intros Hcode Hin.
  assert (Hnf : volume_not_found (ClientError code text) = false).
  { cbn. by apply String.eqb_neq. }
  split; [intros c t; cbn; apply String.eqb_eq|].
  split; [reflexivity|].
  by destruct (lambda_handler_fault ec2_cli event context s _ Hin Hnf)
    as (Hc & Ho & Hd & _).
Qed.

(** C10. On a listing whose records are keyed as the service keys them, an
    invocation in which some status query is taken for "volume not found"
    ends with the key error of the lookup ["snapshotid"]: it returns no
    result and makes no deletion call. *)
Theorem C10_orphan_marking_key_error s response s0 snapshots e :
  describe_snapshots ec2_cli ["self"%string] false s = (inr response, s0) ->
  response !! "Snapshots" = Some snapshots ->
  Forall aws_keyed snapshots ->
  e ∈ status_faults (trace (lambda_handler ec2_cli event context s)) ->
  volume_not_found e = true ->
  outcome (lambda_handler ec2_cli event context s)
  = inl (KeyError "snapshotid") /\
  delete_calls (trace (lambda_handler ec2_cli event context s)) = [].
Proof.
  intros Hlist Hsnaps Hkeys Hin Hnf.
  rewrite lambda_handler_status_faults in Hin.
  assert (Hout : outcome (collect_orphans ec2_cli s)
                 = inl (KeyError "snapshotid")).
  { revert Hin. rewrite collect_orphans_eq, Hlist, Hsnaps.
    pose proof (scan_snapshots_key_error ec2_cli snapshots [] s0 e) as Hk.
    destruct (scan_snapshots ec2_cli snapshots [] s0) as [[r s1] t1].
    cbn in *. intros Hin. apply Hk; [|done..].
    eapply Forall_impl; [exact Hkeys|]. by intros r' [_ ?]. }
  rewrite (lambda_handler_aborted ec2_cli event context s _ Hout).
  split; [reflexivity|]. apply collect_orphans_quiet.
Qed.

(** C4. When the first phase ends with an empty list of orphans, the
    invocation returns [{"statusCode": 200}] and makes no deletion call; and
    when it ends with a list every deletion of which goes through, the
    invocation returns [{"statusCode": 200}] as well, having deleted the
    whole list. *)
Theorem C4_success_status_200 s snapshot_id s1 t1 :
  collect_orphans ec2_cli s = (inr snapshot_id, s1, t1) ->
  (snapshot_id = [] ->
   outcome (lambda_handler ec2_cli event context s) = inr ok_200 /\
   statusCode ok_200 = 200 /\
   delete_calls (trace (lambda_handler ec2_cli event context s)) = []) /\
  (delete_faults (trace (lambda_handler ec2_cli event context s)) = [] ->
   outcome (lambda_handler ec2_cli event context s) = inr ok_200 /\
   deleted (trace (lambda_handler ec2_cli event context s)) = snapshot_id).
Proof.
  intros Hc.
  destruct (lambda_handler_reaps ec2_cli event context s _ _ _ Hc)
    as (-> & Hd1 & Hl1).
  destruct (delete_calls_nil _ Hd1) as [Hdel1 Hf1].
  pose proof (reap_spec ec2_cli snapshot_id s1) as (Hp & Hl & Ho).
  cbn [outcome trace final fst snd]. split.
  - intros ->. rewrite reap_eq. cbn. by rewrite app_nil_r.
  - rewrite delete_faults_app, deleted_app, Hf1, Hdel1. cbn [app].
    intros Hf. destruct (outcome (reap ec2_cli snapshot_id s1)) as [e|res].
    + destruct Ho as (_ & sid & e' & Hf' & _). congruence.
    + by destruct Ho as (-> & _ & ->).
Qed.

(** C5. When the first phase ends with a non-empty list of orphans, that
    list follows the order of the listing, the deletion calls are made in
    the order of the list (all of it when no deletion raises), and the log
    holds one record per deletion that returned, in order, each made of
    the text ["Deleted SnapshotId "] and the identifier. *)
Theorem C5_deletion_order_and_log s response s0 snapshots snapshot_id s1 t1 :
  describe_snapshots ec2_cli ["self"%string] false s = (inr response, s0) ->
  response !! "Snapshots" = Some snapshots ->
  collect_orphans ec2_cli s = (inr snapshot_id, s1, t1) ->
  snapshot_id <> [] ->
  sublist snapshot_id
          (omap (fun r : Snapshot => r !! "snapshotid") snapshots) /\
  (exists rest,
     snapshot_id
     = delete_calls (trace (lambda_handler ec2_cli event context s))
       ++ rest) /\
  (delete_faults (trace (lambda_handler ec2_cli event context s)) = [] ->
   delete_calls (trace (lambda_handler ec2_cli event context s))
   = snapshot_id) /\
  log_records (trace (lambda_handler ec2_cli event context s))
  = map deleted_record
        (deleted (trace (lambda_handler ec2_cli event context s))).
Proof.
  intros Hlist Hsnaps Hc _.
  destruct (lambda_handler_reaps ec2_cli event context s _ _ _ Hc)
    as (-> & Hd1 & Hl1).
  destruct (delete_calls_nil _ Hd1) as [Hdel1 Hf1].
  pose proof (reap_spec ec2_cli snapshot_id s1) as (Hp & Hl & Ho).
  cbn [outcome trace final fst snd].
  rewrite delete_calls_app, delete_faults_app, log_records_app, deleted_app,
    Hd1, Hl1, Hdel1, Hf1. cbn [app].
  split; [|split; [exact Hp|split; [|exact Hl]]].
  - revert Hc. rewrite collect_orphans_eq, Hlist, Hsnaps.
    pose proof (scan_snapshots_order ec2_cli snapshots [] s0 snapshot_id)
      as Hs.
    destruct (scan_snapshots ec2_cli snapshots [] s0) as [[r s2] t2].
    cbn in Hs. intros [= -> _ _].
    by destruct Hs as (l' & -> & Hsub).
  - intros Hf. destruct Hp as [rest Hrest].
    destruct (outcome (reap ec2_cli snapshot_id s1)) as [e|res].
    + destruct Ho as (_ & sid & e' & Hf' & _). congruence.
    + destruct Ho as (_ & _ & Hdel).
      clear -Hf Hrest Hdel.
      revert Hf Hdel Hrest.
      generalize (trace (reap ec2_cli snapshot_id s1)). intros t Hf Hdel.
      assert (Hcd : delete_calls t = deleted t).
      { clear Hdel. induction t as [|[| | sid [e|] |] t IH]; cbn in *;
          try discriminate; auto. by rewrite IH. }
      by rewrite Hcd, Hdel.
Qed.

(** C8. The trigger payload and the execution context do not enter the
    computation: against the same provider state, two invocations that
    differ in them only make the same calls, leave the same state and have
    the same outcome. *)
Theorem C8_payload_and_context_unused
    {E' C' : Type} (event' : E') (context' : C') s :
  lambda_handler ec2_cli event context s
  = lambda_handler ec2_cli event' context' s.
Proof. reflexivity. Qed.

(** C6, as amended. An invocation that returns, no deletion having failed,
    returns exactly [{"statusCode": 200}]: the result has no body and no
    count of the snapshots deleted, whatever their number; that number is
    the number of records the invocation logged. *)
Theorem C6_success_result_carries_no_count s res :
  outcome (lambda_handler ec2_cli event context s) = inr res ->
  delete_faults (trace (lambda_handler ec2_cli event context s)) = [] ->
  res = ok_200 /\
  body res = None /\
  length (log_records (trace (lambda_handler ec2_cli event context s)))
  = length (deleted (trace (lambda_handler ec2_cli event context s))).
Proof.
  rewrite lambda_handler_eq.
  pose proof (collect_orphans_quiet ec2_cli s) as [Hd1 Hl1].
  destruct (collect_orphans ec2_cli s) as [[[e|l] s1] t1];
    [discriminate|].
  destruct (delete_calls_nil _ Hd1) as [Hdel1 _].
  pose proof (reap_spec ec2_cli l s1) as (_ & Hl & Ho).
  destruct (reap ec2_cli l s1) as [[[e|r] s2] t2]; cbn in *;
    [discriminate|].
  intros [= ->] _. destruct Ho as (-> & _ & _).
  split; [reflexivity|]. split; [reflexivity|].
  rewrite log_records_app, deleted_app, Hl1, Hdel1, Hl. cbn [app].
  apply List.length_map.
Qed.

End Claims.

(** ** The same properties on sample accounts *)

Lemma C2_other_check_failure_aborts_witness :
  timed_out ∈ status_faults (trace (invoke account_timeout)) /\
  volume_not_found timed_out = false /\
  carries_code timed_out = true /\
  outcome (invoke account_timeout) = inl timed_out /\
  delete_calls (trace (invoke account_timeout)) = [] /\
  log_records (trace (invoke account_timeout)) = [].
Proof.
  assert (Hin : timed_out ∈ status_faults (trace (invoke account_timeout))).
  { vm_compute. constructor. }
  split; [exact Hin|]. split; [reflexivity|]. split; [reflexivity|].
  destruct (C2_other_check_failure_aborts account tt tt account_timeout
              timed_out Hin eq_refl) as (_ & Hd & Hl & Ho).
  split; [exact (Ho eq_refl)|]. by split.
Defined.

Lemma C9_not_found_code_is_exact_witness :
  "InvalidVolume.NotFound"%string <> "InvalidVolume.Notfound"%string /\
  not_found "InvalidVolume.NotFound"
    ∈ status_faults (trace (invoke account_aws)) /\
  outcome (collect_orphans account account_aws)
  = inl (not_found "InvalidVolume.NotFound") /\
  outcome (invoke account_aws) = inl (not_found "InvalidVolume.NotFound") /\
  delete_calls (trace (invoke account_aws)) = [].
Proof.
  assert (Hne : "InvalidVolume.NotFound"%string
                <> "InvalidVolume.Notfound"%string) by discriminate.
  assert (Hin : not_found "InvalidVolume.NotFound"
                  ∈ status_faults (trace (invoke account_aws))).
  { vm_compute. constructor. }
  split; [exact Hne|]. split; [exact Hin|].
  exact (proj2 (proj2 (C9_not_found_code_is_exact account tt tt account_aws
                         _ _ Hne Hin))).
Defined.

Lemma C10_orphan_marking_key_error_witness :
  Forall aws_keyed (three aws_snapshot) /\
  not_found "InvalidVolume.Notfound"
    ∈ status_faults (trace (invoke account_literal)) /\
  volume_not_found (not_found "InvalidVolume.Notfound") = true /\
  outcome (invoke account_literal) = inl (KeyError "snapshotid") /\
  delete_calls (trace (invoke account_literal)) = [].
Proof.
  assert (Hkeys : Forall aws_keyed (three aws_snapshot)).
  { repeat (constructor;
      [split; [eexists; vm_compute; reflexivity|vm_compute; reflexivity]|]).
    constructor. }
  assert (Hin : not_found "InvalidVolume.Notfound"
                  ∈ status_faults (trace (invoke account_literal))).
  { vm_compute. constructor. }
  split; [exact Hkeys|]. split; [exact Hin|]. split; [reflexivity|].
  exact (C10_orphan_marking_key_error account tt tt account_literal
           {[ "Snapshots" := three aws_snapshot ]} account_literal
           (three aws_snapshot) _ eq_refl eq_refl Hkeys Hin eq_refl).
Defined.

Lemma C4_success_status_200_witness :
  (collect_orphans account account_clean
   = (inr [], account_clean, trace (collect_orphans account account_clean)) /\
   outcome (invoke account_clean) = inr ok_200 /\
   statusCode ok_200 = 200 /\
   delete_calls (trace (invoke account_clean)) = []) /\
  (collect_orphans account account_keyed
   = (inr ["snap-1"; "snap-3"]%string, account_keyed,
      trace (collect_orphans account account_keyed)) /\
   delete_faults (trace (invoke account_keyed)) = [] /\
   outcome (invoke account_keyed) = inr ok_200 /\
   deleted (trace (invoke account_keyed)) = ["snap-1"; "snap-3"]%string).
Proof.
  assert (H0 : collect_orphans account account_clean
               = (inr [], account_clean,
                  trace (collect_orphans account account_clean)))
    by (vm_compute; reflexivity).
  assert (H2 : collect_orphans account account_keyed
               = (inr ["snap-1"; "snap-3"]%string, account_keyed,
                  trace (collect_orphans account account_keyed)))
    by (vm_compute; reflexivity).
  assert (Hf : delete_faults (trace (invoke account_keyed)) = [])
    by (vm_compute; reflexivity).
  split.
  - split; [exact H0|].
    exact (proj1 (C4_success_status_200 account tt tt _ _ _ _ H0) eq_refl).
  - split; [exact H2|]. split; [exact Hf|].
    exact (proj2 (C4_success_status_200 account tt tt _ _ _ _ H2) Hf).
Defined.

Lemma C5_deletion_order_and_log_witness :
  collect_orphans account account_locked
  = (inr ["snap-1"; "snap-3"]%string, account_locked,
     trace (collect_orphans account account_locked)) /\
  delete_calls (trace (invoke account_locked))
  = ["snap-1"; "snap-3"]%string /\
  deleted (trace (invoke account_locked)) = ["snap-1"%string] /\
  log_records (trace (invoke account_locked))
  = map deleted_record (deleted (trace (invoke account_locked))).
Proof.
  assert (Hc : collect_orphans account account_locked
               = (inr ["snap-1"; "snap-3"]%string, account_locked,
                  trace (collect_orphans account account_locked)))
    by (vm_compute; reflexivity).
  split; [exact Hc|]. split; [vm_compute; reflexivity|].
  split; [vm_compute; reflexivity|].
  refine (proj2 (proj2 (proj2
    (C5_deletion_order_and_log account tt tt account_locked
       {[ "Snapshots" := three keyed_snapshot ]} account_locked
       (three keyed_snapshot) _ _ _ eq_refl eq_refl Hc _)))).
  discriminate.
Defined.

(** ** Invocations against the model account *)

Lemma account_status_query v a :
  describe_volume_status account [v] false a = (acct_volume_fault a v, a).
Proof.
  cbn. unfold account_describe_volume_status. cbn.
  by destruct (acct_volume_fault a v).
Qed.

Lemma account_listing a :
  describe_snapshots account ["self"%string] false a
  = (inr {[ "Snapshots" := acct_snapshots a ]}, a).
Proof. reflexivity. Qed.

(** The first loop leaves the account as it is; when it returns, every
    record it went through is settled by the list it returns. *)
Lemma account_scan snapshots : forall snapshot_id a l,
  outcome (scan_snapshots account snapshots snapshot_id a) = inr l ->
  final (scan_snapshots account snapshots snapshot_id a) = a /\
  exists l', l = snapshot_id ++ l' /\ Forall (settled a l) snapshots.
Proof.
  induction snapshots as [|each rest IH]; intros acc a l.
  - cbn. intros [= <-]. split; [reflexivity|].
    exists []. by rewrite app_nil_r.
  - rewrite scan_snapshots_cons.
    destruct (each !! "VolumeId") as [v|] eqn:Hv.
    2: { by rewrite (check_snapshot_no_volume account _ _ _ Hv). }
    pose proof (account_status_query v a) as Hq.
    destruct (acct_volume_fault a v) as [e|] eqn:Hfault.
    + rewrite (check_snapshot_raised account _ _ _ _ _ _ Hv Hq).
      destruct (volume_not_found e); [|discriminate].
      destruct (each !! "snapshotid") as [sid|] eqn:Hk; [|discriminate].
      specialize (IH (acc ++ [sid]) a l).
      destruct (scan_snapshots account rest (acc ++ [sid]) a)
        as [[r a2] t2].
      cbn in *. intros Hr. destruct (IH Hr) as (-> & l' & -> & Hall).
      split; [reflexivity|]. exists (sid :: l').
      split; [by rewrite <- app_assoc|].
      constructor; [|exact Hall].
      exists v. split; [exact Hv|]. right. exists sid. split; [exact Hk|].
      rewrite !elem_of_app, list_elem_of_singleton. auto.
    + rewrite (check_snapshot_present account _ _ _ _ _ Hv Hq).
      specialize (IH acc a l).
      destruct (scan_snapshots account rest acc a) as [[r a2] t2].
      cbn in *. intros Hr. destruct (IH Hr) as (-> & l' & -> & Hall).
      split; [reflexivity|]. exists l'. split; [reflexivity|].
      constructor; [|exact Hall]. exists v. auto.
Qed.

(** On records that are all quiet, the first loop returns the list it was
    given and leaves the account as it is. *)
Lemma account_scan_quiet snapshots : forall snapshot_id a,
  Forall (quiet a) snapshots ->
  outcome (scan_snapshots account snapshots snapshot_id a)
  = inr snapshot_id /\
  final (scan_snapshots account snapshots snapshot_id a) = a.
Proof.
  induction snapshots as [|each rest IH]; intros acc a Hall; [by split|].
  apply Forall_cons in Hall as [(v & Hv & Hfault) Hall].
  pose proof (account_status_query v a) as Hq. rewrite Hfault in Hq.
  rewrite scan_snapshots_cons,
    (check_snapshot_present account _ _ _ _ _ Hv Hq).
  specialize (IH acc a Hall).
  by destruct (scan_snapshots account rest acc a) as [[r a2] t2].
Qed.

(** A deletion that returns leaves the faults as they are, adds no record
    to the listing and removes the record of that identifier. *)
Lemma account_delete_returns sid a a' :
  delete_snapshot account sid a = (None, a') ->
  acct_volume_fault a' = acct_volume_fault a /\
  acct_delete_fault a' = acct_delete_fault a /\
  forall r, r ∈ acct_snapshots a' ->
            r ∈ acct_snapshots a /\ has_id sid r = false.
Proof.
  cbn. unfold account_delete_snapshot.
  destruct (acct_delete_fault a sid); [discriminate|].
  destruct (existsb (has_id sid) (acct_snapshots a)); [|discriminate].
  intros [= <-]. cbn. split; [reflexivity|]. split; [reflexivity|].
  intros r [Hin Hid]%list_elem_of_In%filter_In.
  split; [by apply list_elem_of_In|]. by apply negb_true_iff.
Qed.

(** The second loop, when it falls through: the records left are records of
    the account it started from that carry none of the deleted
    identifiers. *)
Lemma account_delete_loop snapshot_id : forall a,
  outcome (delete_snapshots account snapshot_id a) = inr None ->
  acct_volume_fault (final (delete_snapshots account snapshot_id a))
  = acct_volume_fault a /\
  forall r,
    r ∈ acct_snapshots (final (delete_snapshots account snapshot_id a)) ->
    r ∈ acct_snapshots a /\
    Forall (fun sid => has_id sid r = false) snapshot_id.
Proof.
  induction snapshot_id as [|each rest IH]; intros a; [by cbn|].
  rewrite delete_snapshots_cons.
  destruct (delete_snapshot account each a) as [[e|] a1] eqn:Hd.
  - by rewrite (delete_one_raised account _ _ _ _ Hd).
  - rewrite (delete_one_done account _ _ _ Hd).
    destruct (account_delete_returns _ _ _ Hd) as (Hvf & _ & Hrec).
    specialize (IH a1).
    destruct (delete_snapshots account rest a1) as [[r a2] t2].
    cbn in *. intros Hr. destruct (IH Hr) as [Hvf2 Hrec2].
    split; [congruence|]. intros x Hx.
    destruct (Hrec2 x Hx) as [Hx1 Hall].
    destruct (Hrec x Hx1) as [Hx0 Hid]. split; [exact Hx0|].
    by constructor.
Qed.

(** The same for the second phase, which skips the loop on the empty
    list. *)
Lemma account_reap snapshot_id a res :
  outcome (reap account snapshot_id a) = inr res ->
  acct_volume_fault (final (reap account snapshot_id a))
  = acct_volume_fault a /\
  forall r,
    r ∈ acct_snapshots (final (reap account snapshot_id a)) ->
    r ∈ acct_snapshots a /\
    Forall (fun sid => has_id sid r = false) snapshot_id.
Proof.
  rewrite reap_eq. destruct snapshot_id as [|each rest]; [by cbn|].
  pose proof (account_delete_loop (each :: rest) a) as Hloop.
  pose proof (delete_snapshots_outcome account (each :: rest) a) as Hout.
  cbv zeta in Hout.
  destruct (delete_snapshots account (each :: rest) a)
    as [[[e|[res'|]] a1] t]; cbn in *; [discriminate|done|].
  intros _. by apply Hloop.
Qed.

(** An invocation against an account whose records are all quiet finds no
    orphan, deletes nothing, returns [{"statusCode": 200}] and leaves the
    account as it is. *)
Lemma account_quiet_invocation a :
  Forall (quiet a) (acct_snapshots a) ->
  outcome (collect_orphans account a) = inr [] /\
  outcome (invoke a) = inr ok_200 /\
  delete_calls (trace (invoke a)) = [] /\
  final (invoke a) = a.
Proof.
  intros Hall. unfold invoke.
  pose proof (collect_orphans_quiet account a) as [Hq _].
  rewrite lambda_handler_eq. revert Hq.
  rewrite collect_orphans_eq, account_listing, lookup_singleton_eq.
  destruct (account_scan_quiet (acct_snapshots a) [] a Hall) as [Ho Hf].
  destruct (scan_snapshots account (acct_snapshots a) [] a) as [[r a1] t1].
  cbn in *. subst. intros Hq. rewrite reap_eq. cbn.
  by rewrite app_nil_r.
Qed.

(** ** Orphan marking, deletion failures and successive invocations *)

(** C1. A snapshot whose volume is missing does not reach the list of
    orphans.  With records and error code as the service gives them, the
    status query of [vol-1] raises and the first phase ends with that
    exception; with the error code the handler compares against, the
    lookup of ["snapshotid"] raises a key error.  Either way no list is
    produced and [snap-1] is never deleted. *)
Theorem C1_missing_volume_snapshot_not_marked :
  outcome (collect_orphans account account_aws)
  = inl (not_found "InvalidVolume.NotFound") /\
  outcome (invoke account_aws) = inl (not_found "InvalidVolume.NotFound") /\
  outcome (collect_orphans account account_literal)
  = inl (KeyError "snapshotid") /\
  outcome (invoke account_literal) = inl (KeyError "snapshotid") /\
  delete_calls (trace (invoke account_aws)) = [] /\
  delete_calls (trace (invoke account_literal)) = [].
Proof. vm_compute. repeat split. Qed.

(** C3. When the deletion of [snap-3] is refused, the invocation stops
    deleting, but it does not return a result with status 500: evaluating
    the [except] clause raises an attribute error, which ends the
    invocation. *)
Theorem C3_delete_failure_raises_attribute_error :
  outcome (invoke account_locked) = inl (AttributeError "EC2" "exception") /\
  delete_faults (trace (invoke account_locked))
  = [("snap-3"%string, access_denied)] /\
  delete_calls (trace (invoke account_locked))
  = ["snap-1"; "snap-3"]%string /\
  log_records (trace (invoke account_locked))
  = ["Deleted SnapshotId snap-1"%string].
Proof. vm_compute. repeat split. Qed.

(** C6, as stated, fails: no reading of the returned result gives the
    number of snapshots deleted or else a deletion error.  The invocations
    against [account_clean] and [account_keyed] both return
    [{"statusCode": 200}], after no deletion and after two. *)
Lemma C6_result_does_not_tell_count :
  ~ exists count : Result -> option nat,
      forall a res,
        outcome (invoke a) = inr res ->
        match count res with
        | Some n => n = length (deleted (trace (invoke a)))
        | None => delete_faults (trace (invoke a)) <> []
        end.
Proof.
  intros [count Hcount].
  pose proof (Hcount account_clean ok_200 eq_refl) as H0.
  pose proof (Hcount account_keyed ok_200 eq_refl) as H2.
  destruct (count ok_200) as [n|].
  - vm_compute in H0, H2. congruence.
  - apply H0. reflexivity.
Qed.

Lemma C6_success_result_carries_no_count_witness :
  outcome (invoke account_keyed) = inr ok_200 /\
  delete_faults (trace (invoke account_keyed)) = [] /\
  body ok_200 = None /\
  length (log_records (trace (invoke account_keyed))) = 2%nat /\
  length (log_records (trace (invoke account_keyed)))
  = length (deleted (trace (invoke account_keyed))).
Proof.
  assert (Ho : outcome (invoke account_keyed) = inr ok_200)
    by (vm_compute; reflexivity).
  assert (Hf : delete_faults (trace (invoke account_keyed)) = [])
    by (vm_compute; reflexivity).
  split; [exact Ho|]. split; [exact Hf|]. split; [reflexivity|].
  split; [vm_compute; reflexivity|].
  exact (proj2 (proj2 (C6_success_result_carries_no_count account tt tt
                         account_keyed ok_200 Ho Hf))).
Defined.

(** C7, as stated, fails: a second invocation can end in an error.  After
    a first invocation that deleted [snap-1] and was refused [snap-3], the
    second is refused [snap-3] again; and a status query that is not
    authorized ends the second invocation as it ended the first. *)
Lemma C7_second_run_can_fail :
  deleted (trace (invoke account_locked)) = ["snap-1"%string] /\
  outcome (invoke (final (invoke account_locked)))
  = inl (AttributeError "EC2" "exception") /\
  outcome (invoke (final (invoke account_unauthorized)))
  = inl (ClientError "UnauthorizedOperation"
           "You are not authorized to perform this operation.").
Proof. vm_compute. repeat split. Qed.

(** C7, as amended. Against an account whose records carry, under
    ["snapshotid"] when they have that entry, the identifier the service
    knows them by: when a first invocation returns, a second invocation
    against the account it left finds no orphan, makes no deletion call,
    returns [{"statusCode": 200}] and leaves the account as it is. *)
Theorem C7_second_run_after_success a res :
  forallb id_consistent (acct_snapshots a) = true ->
  outcome (invoke a) = inr res ->
  outcome (collect_orphans account (final (invoke a))) = inr [] /\
  outcome (invoke (final (invoke a))) = inr ok_200 /\
  delete_calls (trace (invoke (final (invoke a)))) = [] /\
  final (invoke (final (invoke a))) = final (invoke a).
Proof.
  intros Hid Hres. apply account_quiet_invocation.
  unfold invoke in *. revert Hres.
  rewrite lambda_handler_eq, collect_orphans_eq, account_listing,
    lookup_singleton_eq.
  pose proof (account_scan (acct_snapshots a) [] a) as Hscan.
  destruct (scan_snapshots account (acct_snapshots a) [] a)
    as [[[e|l] a1] t1]; cbn in *; [discriminate|].
  destruct (Hscan l eq_refl) as (-> & l' & -> & Hall).
  pose proof (account_reap l' a) as Hreap.
  destruct (reap account l' a) as [[[e|r] a2] t2]; cbn in *;
    [discriminate|].
  intros _. destruct (Hreap r eq_refl) as [Hvf Hrec].
  apply Forall_forall. intros x Hx. destruct (Hrec x Hx) as [Hx0 Hnot].
  rewrite Forall_forall in Hall.
  destruct (Hall x Hx0) as (v & Hv & [Hfault | (sid & Hk & Hsid)]).
  - exists v. split; [exact Hv|]. by rewrite Hvf.
  - exfalso. rewrite forallb_forall in Hid.
    specialize (Hid x (proj1 (list_elem_of_In _ _) Hx0)).
    unfold id_consistent in Hid. rewrite Hk in Hid.
    rewrite Forall_forall in Hnot. specialize (Hnot sid Hsid). congruence.
Qed.

Lemma C7_second_run_after_success_witness :
  forallb id_consistent (acct_snapshots account_keyed) = true /\
  outcome (invoke account_keyed) = inr ok_200 /\
  deleted (trace (invoke account_keyed)) = ["snap-1"; "snap-3"]%string /\
  outcome (collect_orphans account (final (invoke account_keyed))) = inr [] /\
  outcome (invoke (final (invoke account_keyed))) = inr ok_200 /\
  delete_calls (trace (invoke (final (invoke account_keyed)))) = [] /\
  final (invoke (final (invoke account_keyed)))
  = final (invoke account_keyed).
Proof.
  assert (Hid : forallb id_consistent (acct_snapshots account_keyed) = true)
    by (vm_compute; reflexivity).
  assert (Ho : outcome (invoke account_keyed) = inr ok_200)
    by (vm_compute; reflexivity).
  split; [exact Hid|]. split; [exact Ho|]. split; [vm_compute; reflexivity|].
  exact (C7_second_run_after_success account_keyed ok_200 Hid Ho).
Defined.

(** * Further properties of the handler *)

Lemma queried_volumes_app t1 t2 :
  queried_volumes (t1 ++ t2) = queried_volumes t1 ++ queried_volumes t2.
Proof.
  induction t1 as [|[| vs d raised | |] t1 IH]; cbn; rewrite ?IH;
    try reflexivity.
  by rewrite app_assoc.
Qed.

Lemma query_results_app t1 t2 :
  query_results (t1 ++ t2) = query_results t1 ++ query_results t2.
Proof.
  induction t1 as [|[| | |] t1 IH]; cbn; rewrite ?IH; reflexivity.
Qed.

(** A trace of deletions and log records holds no status query. *)
Lemma deletion_events_no_query t :
  forallb deletion_event t = true ->
  query_results t = [] /\ queried_volumes t = [] /\ status_faults t = [].
Proof.
  induction t as [|[| | |] t IH]; cbn; intros H; try discriminate; auto.
Qed.

(** A trace of status queries holds no deletion. *)
Lemma status_queries_no_deletion t :
  forallb real_status_query t = true -> delete_calls t = [].
Proof.
  induction t as [|[| | |] t IH]; cbn; intros H; try discriminate; auto.
  apply IH. by apply andb_true_iff in H as [_ H].
Qed.

(** The entries marked are at most as many as the queries that raised. *)
Lemma marked_length snapshots : forall t,
  (length (marked snapshots (query_results t))
   <= length (status_faults t))%nat.
Proof.
  induction snapshots as [|r rest IH]; intros t; [cbn; lia|].
  induction t as [|[| vs d [e|] | |] t IHt]; cbn in *; try lia.
  - specialize (IH t). destruct (r !! "snapshotid"); cbn; lia.
  - apply IH.
Qed.

Section LoopsComposed.

Context {St : Type} (ec2_cli : Provider St).

Ltac scan_step each s :=
  let v := fresh "v" in
  let Hv := fresh "Hv" in
  let Hq := fresh "Hq" in
  let e := fresh "e" in
  let s1 := fresh "s1" in
  rewrite scan_snapshots_cons;
  destruct (each !! "VolumeId") as [v|] eqn:Hv;
  [ destruct (describe_volume_status ec2_cli [v] false s)
      as [[e|] s1] eqn:Hq;
    [ rewrite (check_snapshot_raised ec2_cli _ _ _ _ _ _ Hv Hq)
    | rewrite (check_snapshot_present ec2_cli _ _ _ _ _ Hv Hq) ]
  | rewrite (check_snapshot_no_volume ec2_cli _ _ _ Hv) ].

Ltac delete_step each s :=
  let Hd := fresh "Hd" in
  let e := fresh "e" in
  let s1 := fresh "s1" in
  rewrite delete_snapshots_cons;
  destruct (delete_snapshot ec2_cli each s) as [[e|] s1] eqn:Hd;
  [ rewrite (delete_one_raised ec2_cli _ _ _ _ Hd)
  | rewrite (delete_one_done ec2_cli _ _ _ Hd) ].

(** The first loop over a listing in two parts is the loop over the first
    part followed by the loop over the second. *)
Lemma scan_snapshots_app l1 : forall l2 snapshot_id s,
  scan_snapshots ec2_cli (l1 ++ l2) snapshot_id s
  = bind (scan_snapshots ec2_cli l1 snapshot_id)
         (scan_snapshots ec2_cli l2) s.
Proof.
  induction l1 as [|each rest IH]; intros l2 acc s.
  - unfold bind. cbn.
    by destruct (scan_snapshots ec2_cli l2 acc s) as [[r s2] t2].
  - cbn [app]. unfold bind. rewrite !scan_snapshots_cons.
    destruct (check_snapshot ec2_cli each acc s) as [[[e|acc'] s1] t1];
      [reflexivity|].
    rewrite IH. unfold bind.
    destruct (scan_snapshots ec2_cli rest acc' s1) as [[[e|a] s2] t2];
      [reflexivity|].
    destruct (scan_snapshots ec2_cli l2 a s2) as [[r s3] t3].
    by rewrite app_assoc.
Qed.

(** Every event of the first loop is a status query for one volume, not a
    dry run. *)
Lemma scan_snapshots_shape snapshots : forall snapshot_id s,
  forallb real_status_query
          (trace (scan_snapshots ec2_cli snapshots snapshot_id s)) = true.
Proof.
  induction snapshots as [|each rest IH]; intros acc s; [reflexivity|].
  scan_step each s.
  - destruct (volume_not_found e); [destruct (each !! "snapshotid")
      as [sid|]|]; try reflexivity.
    specialize (IH (acc ++ [sid]) s1).
    by destruct (scan_snapshots ec2_cli rest (acc ++ [sid]) s1)
      as [[r s2] t2].
  - specialize (IH acc s1).
    by destruct (scan_snapshots ec2_cli rest acc s1) as [[r s2] t2].
  - reflexivity.
Qed.

(** The trace of the second loop: for each deletion that returned, the call
    and then its log record; last, the deletion that raised, if any. *)
Lemma delete_snapshots_shape snapshot_id : forall s,
  trace (delete_snapshots ec2_cli snapshot_id s)
  = flat_map deletion_done
             (deleted (trace (delete_snapshots ec2_cli snapshot_id s)))
    ++ map deletion_raised
           (delete_faults (trace (delete_snapshots ec2_cli snapshot_id s))).
Proof.
  induction snapshot_id as [|each rest IH]; intros s; [reflexivity|].
  delete_step each s; [reflexivity|].
  specialize (IH s1).
  destruct (delete_snapshots ec2_cli rest s1) as [[r s2] t2].
  cbn in *. by rewrite <- IH.
Qed.

Lemma delete_snapshots_events snapshot_id : forall s,
  forallb deletion_event (trace (delete_snapshots ec2_cli snapshot_id s))
  = true.
Proof.
  induction snapshot_id as [|each rest IH]; intros s; [reflexivity|].
  delete_step each s; [reflexivity|].
  specialize (IH s1).
  by destruct (delete_snapshots ec2_cli rest s1) as [[r s2] t2].
Qed.

(** When the first loop returns: it made one status query per record, for
    that record's volume; every query that raised was taken for a missing
    volume; and the list returned is the one it started from followed by
    the ["snapshotid"] entries of the records whose query raised. *)
Lemma scan_snapshots_marked snapshots : forall snapshot_id s l,
  outcome (scan_snapshots ec2_cli snapshots snapshot_id s) = inr l ->
  l = snapshot_id
      ++ marked snapshots
           (query_results
              (trace (scan_snapshots ec2_cli snapshots snapshot_id s))) /\
  map Some (queried_volumes
              (trace (scan_snapshots ec2_cli snapshots snapshot_id s)))
  = map (fun r : Snapshot => r !! "VolumeId") snapshots /\
  length (query_results
            (trace (scan_snapshots ec2_cli snapshots snapshot_id s)))
  = length snapshots /\
  Forall (fun e => volume_not_found e = true)
         (status_faults
            (trace (scan_snapshots ec2_cli snapshots snapshot_id s))).
Proof.
  induction snapshots as [|each rest IH]; intros acc s l.
  - cbn. intros [= <-]. by rewrite app_nil_r.
  - scan_step each s.
    + destruct (volume_not_found e) eqn:Hnf; [|cbn; discriminate].
      destruct (each !! "snapshotid") as [sid|] eqn:Hk; [|cbn; discriminate].
      specialize (IH (acc ++ [sid]) s1 l).
      destruct (scan_snapshots ec2_cli rest (acc ++ [sid]) s1)
        as [[r s2] t2].
      cbn in *. intros Hr. destruct (IH Hr) as (-> & Hv' & Hlen & Hall).
      rewrite Hk, Hv, Hv', Hlen, <- app_assoc. by repeat split; [constructor].
    + specialize (IH acc s1 l).
      destruct (scan_snapshots ec2_cli rest acc s1) as [[r s2] t2].
      cbn in *. intros Hr. destruct (IH Hr) as (-> & Hv' & Hlen & Hall).
      by rewrite Hv, Hv', Hlen.
    + cbn. discriminate.
Qed.

(** In every case the status queries follow the listing: they are made for
    the volumes of the records, in order, up to where the loop stops. *)
Lemma scan_snapshots_queries snapshots : forall snapshot_id s,
  exists rest,
    omap (fun r : Snapshot => r !! "VolumeId") snapshots
    = queried_volumes
        (trace (scan_snapshots ec2_cli snapshots snapshot_id s)) ++ rest.
Proof.
  induction snapshots as [|each rest IH]; intros acc s; [by exists []|].
  scan_step each s; cbn [omap list_omap]; rewrite Hv.
  - destruct (volume_not_found e); [destruct (each !! "snapshotid")
      as [sid|]|];
      try by exists (omap (fun r : Snapshot => r !! "VolumeId") rest).
    destruct (IH (acc ++ [sid]) s1) as [rest' Hrest].
    destruct (scan_snapshots ec2_cli rest (acc ++ [sid]) s1)
      as [[r s2] t2].
    cbn in *. exists rest'. by rewrite Hrest.
  - destruct (IH acc s1) as [rest' Hrest].
    destruct (scan_snapshots ec2_cli rest acc s1) as [[r s2] t2].
    cbn in *. exists rest'. by rewrite Hrest.
  - by exists (omap (fun r : Snapshot => r !! "VolumeId") rest).
Qed.

End LoopsComposed.

Section FurtherProperties.

Context {St : Type} (ec2_cli : Provider St).
Context {E C : Type} (event : E) (context : C).

(** An invocation whose listing returned the records [snapshots]. *)
Lemma lambda_handler_listing s response s0 snapshots :
  describe_snapshots ec2_cli ["self"%string] false s = (inr response, s0) ->
  response !! "Snapshots" = Some snapshots ->
  lambda_handler ec2_cli event context s
  = match scan_snapshots ec2_cli snapshots [] s0 with
    | (inl e, s1, t1) =>
        (inl e, s1, DescribeSnapshots ["self"%string] false :: t1)
    | (inr snapshot_id, s1, t1) =>
        match reap ec2_cli snapshot_id s1 with
        | (r, s2, t2) =>
            (r, s2, DescribeSnapshots ["self"%string] false :: t1 ++ t2)
        end
    end.
Proof.
  intros Hlist Hsnaps. rewrite lambda_handler_eq, collect_orphans_eq.
  rewrite Hlist, Hsnaps.
  destruct (scan_snapshots ec2_cli snapshots [] s0) as [[[e|l] s1] t1];
    [reflexivity|].
  by destruct (reap ec2_cli l s1) as [[r s2] t2].
Qed.

(** The events of the second phase, and their order. *)
Lemma reap_shape snapshot_id s :
  forallb deletion_event (trace (reap ec2_cli snapshot_id s)) = true /\
  trace (reap ec2_cli snapshot_id s)
  = flat_map deletion_done (deleted (trace (reap ec2_cli snapshot_id s)))
    ++ map deletion_raised
           (delete_faults (trace (reap ec2_cli snapshot_id s))).
Proof.
  rewrite reap_eq. destruct snapshot_id as [|each rest]; [by split|].
  pose proof (delete_snapshots_events ec2_cli (each :: rest) s) as He.
  pose proof (delete_snapshots_shape ec2_cli (each :: rest) s) as Hs.
  destruct (delete_snapshots ec2_cli (each :: rest) s)
    as [[[e|[res|]] s1] t]; cbn [trace snd] in *; rewrite ?app_nil_r;
    by split.
Qed.

(** On records keyed as the service keys them, no ["snapshotid"] entry can
    be collected. *)
Lemma aws_keyed_no_entry snapshots :
  Forall aws_keyed snapshots ->
  omap (fun r : Snapshot => r !! "snapshotid") snapshots = [].
Proof.
  induction 1 as [|r rest [_ Hk] _ IH]; [reflexivity|].
  cbn. by rewrite Hk.
Qed.

(** X1. When the listing call raises, the invocation raises that exception
    at once: it has made that one call, no status query and no deletion. *)
Theorem X1_listing_failure_propagates s e s0 :
  describe_snapshots ec2_cli ["self"%string] false s = (inl e, s0) ->
  lambda_handler ec2_cli event context s
  = (inl e, s0, [DescribeSnapshots ["self"%string] false]).
Proof.
  intros Hlist. by rewrite lambda_handler_eq, collect_orphans_eq, Hlist.
Qed.

(** X2. When the response of the listing has no entry ["Snapshots"], the
    invocation ends with the key error of that lookup, after the listing
    call alone. *)
Theorem X2_listing_without_snapshots_key s response s0 :
  describe_snapshots ec2_cli ["self"%string] false s = (inr response, s0) ->
  response !! "Snapshots" = None ->
  lambda_handler ec2_cli event context s
  = (inl (KeyError "Snapshots"), s0,
     [DescribeSnapshots ["self"%string] false]).
Proof.
  intros Hlist Hnone.
  by rewrite lambda_handler_eq, collect_orphans_eq, Hlist, Hnone.
Qed.

(** X3. A record without the entry ["VolumeId"] ends the invocation with the
    key error of that lookup as soon as the first loop reaches it: the
    trace is the listing call and the queries for the records before it,
    with no query for that record or a later one and no deletion, whatever
    the earlier records were marked as. *)
Theorem X3_record_without_volume_aborts
    s response s0 before r after snapshot_id :
  describe_snapshots ec2_cli ["self"%string] false s = (inr response, s0) ->
  response !! "Snapshots" = Some (before ++ r :: after) ->
  outcome (scan_snapshots ec2_cli before [] s0) = inr snapshot_id ->
  r !! "VolumeId" = None ->
  lambda_handler ec2_cli event context s
  = (inl (KeyError "VolumeId"),
     final (scan_snapshots ec2_cli before [] s0),
     DescribeSnapshots ["self"%string] false
       :: trace (scan_snapshots ec2_cli before [] s0)) /\
  delete_calls (trace (lambda_handler ec2_cli event context s)) = [].
Proof.
  intros Hlist Hsnaps Hbefore Hv.
  rewrite (lambda_handler_listing _ _ _ _ Hlist Hsnaps).
  rewrite scan_snapshots_app. unfold bind.
  pose proof (scan_snapshots_quiet ec2_cli before [] s0) as [Hq _].
  destruct (scan_snapshots ec2_cli before [] s0) as [[[e|l] s1] t1];
    cbn in Hbefore, Hq; [discriminate|].
  rewrite scan_snapshots_cons, (check_snapshot_no_volume _ _ _ _ Hv).
  cbn. by rewrite app_nil_r.
Qed.

(** X4. The trace of every invocation has one shape: first the listing
    call, for the owner ["self"] and not a dry run; then status queries
    only, each for one volume and not a dry run; then, for each deletion
    that returned, its call followed at once by its log record; and last
    the deletion that raised, if there is one.  No status query follows a
    deletion and no second listing is made. *)
Theorem X4_trace_shape s :
  exists queries,
    trace (lambda_handler ec2_cli event context s)
    = DescribeSnapshots ["self"%string] false
        :: queries
        ++ flat_map deletion_done
             (deleted (trace (lambda_handler ec2_cli event context s)))
        ++ map deletion_raised
             (delete_faults (trace (lambda_handler ec2_cli event context s)))
    /\ forallb real_status_query queries = true.
Proof.
  rewrite lambda_handler_eq, collect_orphans_eq.
  destruct (describe_snapshots ec2_cli ["self"%string] false s)
    as [[e|response] s0]; [by exists []|].
  destruct (response !! "Snapshots") as [snapshots|]; [|by exists []].
  pose proof (scan_snapshots_shape ec2_cli snapshots [] s0) as Hshape.
  pose proof (scan_snapshots_quiet ec2_cli snapshots [] s0) as [Hq _].
  destruct (scan_snapshots ec2_cli snapshots [] s0) as [[[e|l] s1] t1];
    cbn [trace snd] in *;
    destruct (delete_calls_nil _ Hq) as [Hdel Hf]; exists t1.
  - cbn. rewrite Hdel, Hf. cbn. by rewrite app_nil_r.
  - destruct (reap_shape l s1) as [_ Hreap].
    destruct (reap ec2_cli l s1) as [[r s2] t2]. cbn in *.
    rewrite deleted_app, delete_faults_app, Hdel, Hf. cbn [app].
    by rewrite <- Hreap.
Qed.

(** X5. Whatever exception a deletion raises, a service error or any other,
    the invocation ends with the attribute error of the [except] clause and
    not with that exception; the deletion that raised is the only one that
    did and the last call made. *)
Theorem X5_deletion_failure_masked s :
  delete_faults (trace (lambda_handler ec2_cli event context s)) <> [] ->
  outcome (lambda_handler ec2_cli event context s)
  = inl (AttributeError "EC2" "exception") /\
  exists sid e,
    delete_faults (trace (lambda_handler ec2_cli event context s))
    = [(sid, e)] /\
    delete_calls (trace (lambda_handler ec2_cli event context s))
    = deleted (trace (lambda_handler ec2_cli event context s)) ++ [sid].
Proof.
  rewrite lambda_handler_eq.
  pose proof (collect_orphans_quiet ec2_cli s) as [Hq _].
  destruct (collect_orphans ec2_cli s) as [[[e|l] s1] t1];
    cbn [trace snd outcome fst] in *;
    destruct (delete_calls_nil _ Hq) as [Hdel Hf]; [done|].
  pose proof (reap_spec ec2_cli l s1) as (_ & _ & Ho).
  destruct (reap ec2_cli l s1) as [[[e|r] s2] t2]; cbn in *;
    rewrite delete_faults_app, delete_calls_app, deleted_app, Hq, Hdel, Hf;
    cbn [app].
  - intros _. destruct Ho as (-> & sid & e' & Hf2 & Hc).
    split; [reflexivity|]. by exists sid, e'.
  - by destruct Ho as (_ & -> & _).
Qed.

(** X6. When an invocation returns, the result is [{"statusCode": 200}], no
    deletion has raised, and every status query that raised did so with the
    code the handler takes for a missing volume.  The handler never returns
    the result with status 500. *)
Theorem X6_returned_result_is_ok_200 s res :
  outcome (lambda_handler ec2_cli event context s) = inr res ->
  res = ok_200 /\
  delete_faults (trace (lambda_handler ec2_cli event context s)) = [] /\
  Forall (fun e => volume_not_found e = true)
         (status_faults (trace (lambda_handler ec2_cli event context s))).
Proof.
  intros Hres. split; [|split].
  - revert Hres. rewrite lambda_handler_eq.
    destruct (collect_orphans ec2_cli s) as [[[e|l] s1] t1];
      [discriminate|].
    pose proof (reap_spec ec2_cli l s1) as (_ & _ & Ho).
    destruct (reap ec2_cli l s1) as [[[e|r] s2] t2]; cbn in *;
      [discriminate|].
    intros [= ->]. by destruct Ho.
  - revert Hres. rewrite lambda_handler_eq.
    pose proof (collect_orphans_quiet ec2_cli s) as [Hq _].
    destruct (collect_orphans ec2_cli s) as [[[e|l] s1] t1];
      [discriminate|].
    destruct (delete_calls_nil _ Hq) as [_ Hf].
    pose proof (reap_spec ec2_cli l s1) as (_ & _ & Ho).
    destruct (reap ec2_cli l s1) as [[[e|r] s2] t2]; cbn in *;
      [discriminate|].
    intros _. rewrite delete_faults_app, Hf. by destruct Ho as (_ & -> & _).
  - apply Forall_forall. intros e Hin.
    destruct (volume_not_found e) eqn:Hnf; [reflexivity|].
    destruct (lambda_handler_fault ec2_cli event context s e Hin Hnf)
      as (_ & Ho & _).
    congruence.
Qed.

End FurtherProperties.

Section ListingAndDeletions.

Context {St : Type} (ec2_cli : Provider St).
Context {E C : Type} (event : E) (context : C).

(** X7. Against a listing whose records are keyed as the service keys them,
    no invocation deletes or logs anything, whatever the status queries
    answer; and an invocation returns only if no status query raised at
    all. *)
Theorem X7_service_keyed_listing_never_deletes s response s0 snapshots :
  describe_snapshots ec2_cli ["self"%string] false s = (inr response, s0) ->
  response !! "Snapshots" = Some snapshots ->
  Forall aws_keyed snapshots ->
  delete_calls (trace (lambda_handler ec2_cli event context s)) = [] /\
  log_records (trace (lambda_handler ec2_cli event context s)) = [] /\
  (forall res,
     outcome (lambda_handler ec2_cli event context s) = inr res ->
     status_faults (trace (lambda_handler ec2_cli event context s)) = []).
Proof.
  intros Hlist Hsnaps Hkeys.
  rewrite (lambda_handler_listing ec2_cli event context _ _ _ _ Hlist Hsnaps).
  pose proof (scan_snapshots_quiet ec2_cli snapshots [] s0) as [Hq Hl].
  pose proof (scan_snapshots_order ec2_cli snapshots [] s0) as Hord.
  pose proof (scan_snapshots_fault ec2_cli snapshots [] s0) as Hfault.
  pose proof (scan_snapshots_key_error ec2_cli snapshots [] s0) as Hkey.
  cbv zeta in Hfault, Hkey.
  destruct (scan_snapshots ec2_cli snapshots [] s0) as [[[e|l] s1] t1];
    cbn [trace snd outcome fst] in *; [by repeat split|].
  destruct (Hord l eq_refl) as (l' & -> & Hsub).
  rewrite (aws_keyed_no_entry _ Hkeys) in Hsub.
  apply sublist_nil_r in Hsub as ->.
  rewrite reap_eq. cbn. rewrite app_nil_r.
  split; [exact Hq|]. split; [exact Hl|]. intros _ _.
  destruct (status_faults t1) as [|e0 rest] eqn:Hsf; [reflexivity|].
  exfalso. destruct (volume_not_found e0) eqn:Hnf.
  - assert (Hno : Forall (fun r : Snapshot => r !! "snapshotid" = None)
                         snapshots).
    { eapply Forall_impl; [exact Hkeys|]. by intros r [_ ?]. }
    discriminate (Hkey e0 Hno (list_elem_of_here _ _) Hnf).
  - discriminate (Hfault e0 (list_elem_of_here _ _) Hnf).
Qed.

(** X10. When the first phase returns, it has made exactly one status query
    per listed record, for that record's volume and in listing order; every
    query that raised did so with the code taken for a missing volume; and
    the list it returns holds exactly the ["snapshotid"] entries of the
    records whose own query raised, in listing order, one per record. *)
Theorem X10_orphan_list_exact s response s0 snapshots snapshot_id s1 t1 :
  describe_snapshots ec2_cli ["self"%string] false s = (inr response, s0) ->
  response !! "Snapshots" = Some snapshots ->
  collect_orphans ec2_cli s = (inr snapshot_id, s1, t1) ->
  snapshot_id = marked snapshots (query_results t1) /\
  map Some (queried_volumes t1)
  = map (fun r : Snapshot => r !! "VolumeId") snapshots /\
  length (query_results t1) = length snapshots /\
  Forall (fun e => volume_not_found e = true) (status_faults t1).
Proof.
  intros Hlist Hsnaps. rewrite collect_orphans_eq, Hlist, Hsnaps.
  pose proof (scan_snapshots_marked ec2_cli snapshots [] s0) as Hm.
  destruct (scan_snapshots ec2_cli snapshots [] s0) as [[r s2] t2].
  intros [= -> -> <-]. cbn in *. by apply Hm.
Qed.

(** X11. In every invocation the status queries follow the listing: they
    are made for the volumes of the listed records, in listing order and
    without a gap, up to where the invocation stops querying. *)
Theorem X11_status_queries_follow_listing s response s0 snapshots :
  describe_snapshots ec2_cli ["self"%string] false s = (inr response, s0) ->
  response !! "Snapshots" = Some snapshots ->
  exists rest,
    omap (fun r : Snapshot => r !! "VolumeId") snapshots
    = queried_volumes (trace (lambda_handler ec2_cli event context s))
      ++ rest.
Proof.
  intros Hlist Hsnaps.
  rewrite (lambda_handler_listing ec2_cli event context _ _ _ _ Hlist Hsnaps).
  destruct (scan_snapshots_queries ec2_cli snapshots [] s0) as [rest Hrest].
  destruct (scan_snapshots ec2_cli snapshots [] s0) as [[[e|l] s1] t1];
    cbn [trace snd] in *; [by exists rest|].
  destruct (reap_shape ec2_cli l s1) as [Hev _].
  destruct (deletion_events_no_query _ Hev) as (_ & Hqv & _).
  destruct (reap ec2_cli l s1) as [[r s2] t2]. cbn in *.
  exists rest. by rewrite queried_volumes_app, Hqv, app_nil_r.
Qed.

(** X12. Every deletion call of an invocation is for the ["snapshotid"]
    entry of a listed record whose own status query raised, the calls
    following the order of those records; so an invocation never attempts
    more deletions than status queries raised. *)
Theorem X12_deletions_only_of_marked s response s0 snapshots :
  describe_snapshots ec2_cli ["self"%string] false s = (inr response, s0) ->
  response !! "Snapshots" = Some snapshots ->
  (exists rest,
     marked snapshots
       (query_results (trace (lambda_handler ec2_cli event context s)))
     = delete_calls (trace (lambda_handler ec2_cli event context s))
       ++ rest) /\
  (length (delete_calls (trace (lambda_handler ec2_cli event context s)))
   <= length (status_faults
                (trace (lambda_handler ec2_cli event context s))))%nat.
Proof.
  intros Hlist Hsnaps.
  assert (Hpre : exists rest,
    marked snapshots
      (query_results (trace (lambda_handler ec2_cli event context s)))
    = delete_calls (trace (lambda_handler ec2_cli event context s))
      ++ rest).
  { rewrite (lambda_handler_listing ec2_cli event context _ _ _ _
               Hlist Hsnaps).
    pose proof (scan_snapshots_quiet ec2_cli snapshots [] s0) as [Hq _].
    pose proof (scan_snapshots_marked ec2_cli snapshots [] s0) as Hm.
    destruct (scan_snapshots ec2_cli snapshots [] s0) as [[[e|l] s1] t1];
      cbn [trace snd outcome fst] in *.
    - cbn. rewrite Hq. by eexists.
    - destruct (Hm l eq_refl) as (Hl & _). cbn in Hl.
      destruct (reap_shape ec2_cli l s1) as [Hev _].
      destruct (deletion_events_no_query _ Hev) as (Hqr & _ & _).
      pose proof (reap_spec ec2_cli l s1) as ([rest Hrest] & _).
      destruct (reap ec2_cli l s1) as [[r s2] t2]. cbn in *.
      rewrite query_results_app, delete_calls_app, Hqr, Hq, app_nil_r.
      exists rest. cbn. by rewrite <- Hl. }
  split; [exact Hpre|].
  destruct Hpre as [rest Hrest].
  pose proof (marked_length snapshots
                (trace (lambda_handler ec2_cli event context s))) as Hlen.
  rewrite Hrest, length_app in Hlen. lia.
Qed.

End ListingAndDeletions.

(** ** The further properties on sample providers *)

Lemma X1_listing_failure_propagates_witness :
  describe_snapshots offline ["self"%string] false tt = (inl unreachable, tt) /\
  lambda_handler offline tt tt tt
  = (inl unreachable, tt, [DescribeSnapshots ["self"%string] false]).
Proof.
  split; [reflexivity|].
  exact (X1_listing_failure_propagates offline tt tt tt unreachable tt
           eq_refl).
Defined.

Lemma X2_listing_without_snapshots_key_witness :
  describe_snapshots bare_listing ["self"%string] false tt = (inr ∅, tt) /\
  (∅ : Response) !! "Snapshots" = None /\
  lambda_handler bare_listing tt tt tt
  = (inl (KeyError "Snapshots"), tt,
     [DescribeSnapshots ["self"%string] false]).
Proof.
  split; [reflexivity|]. split; [reflexivity|].
  exact (X2_listing_without_snapshots_key bare_listing tt tt tt ∅ tt
           eq_refl eq_refl).
Defined.

Lemma X3_record_without_volume_aborts_witness :
  acct_snapshots account_no_volume
  = [aws_snapshot "snap-2" "vol-2"]
    ++ {[ "SnapshotId" := "snap-9"%string ]}
    :: [aws_snapshot "snap-3" "vol-3"] /\
  outcome (scan_snapshots account [aws_snapshot "snap-2" "vol-2"] []
             account_no_volume) = inr [] /\
  ({[ "SnapshotId" := "snap-9"%string ]} : Snapshot) !! "VolumeId" = None /\
  outcome (invoke account_no_volume) = inl (KeyError "VolumeId") /\
  trace (invoke account_no_volume)
  = [DescribeSnapshots ["self"%string] false;
     DescribeVolumeStatus ["vol-2"%string] false None] /\
  delete_calls (trace (invoke account_no_volume)) = [].
Proof.
  assert (Hb : outcome (scan_snapshots account
                          [aws_snapshot "snap-2" "vol-2"] []
                          account_no_volume) = inr [])
    by (vm_compute; reflexivity).
  assert (Hv : ({[ "SnapshotId" := "snap-9"%string ]} : Snapshot)
               !! "VolumeId" = None) by (vm_compute; reflexivity).
  split; [reflexivity|]. split; [exact Hb|]. split; [exact Hv|].
  destruct (X3_record_without_volume_aborts account tt tt account_no_volume
              {[ "Snapshots" := acct_snapshots account_no_volume ]}
              account_no_volume [aws_snapshot "snap-2" "vol-2"]
              {[ "SnapshotId" := "snap-9"%string ]}
              [aws_snapshot "snap-3" "vol-3"] [] eq_refl eq_refl Hb Hv)
    as [Hrun Hdel].
  split; [|split; [|exact Hdel]]; unfold invoke; rewrite Hrun;
    vm_compute; reflexivity.
Defined.

Lemma X5_deletion_failure_masked_witness :
  delete_faults (trace (invoke account_locked)) <> [] /\
  outcome (invoke account_locked) = inl (AttributeError "EC2" "exception") /\
  exists sid e,
    delete_faults (trace (invoke account_locked)) = [(sid, e)] /\
    delete_calls (trace (invoke account_locked))
    = deleted (trace (invoke account_locked)) ++ [sid].
Proof.
  assert (Hf : delete_faults (trace (invoke account_locked)) <> [])
    by (vm_compute; discriminate).
  split; [exact Hf|].
  exact (X5_deletion_failure_masked account tt tt account_locked Hf).
Defined.

Lemma X6_returned_result_is_ok_200_witness :
  outcome (invoke account_keyed) = inr ok_200 /\
  delete_faults (trace (invoke account_keyed)) = [] /\
  Forall (fun e => volume_not_found e = true)
         (status_faults (trace (invoke account_keyed))).
Proof.
  assert (Ho : outcome (invoke account_keyed) = inr ok_200)
    by (vm_compute; reflexivity).
  split; [exact Ho|].
  exact (proj2 (X6_returned_result_is_ok_200 account tt tt account_keyed
                  ok_200 Ho)).
Defined.

Lemma X7_service_keyed_listing_never_deletes_witness :
  Forall aws_keyed (three aws_snapshot) /\
  status_faults (trace (invoke account_literal)) <> [] /\
  delete_calls (trace (invoke account_literal)) = [] /\
  log_records (trace (invoke account_literal)) = [].
Proof.
  assert (Hkeys : Forall aws_keyed (three aws_snapshot)).
  { repeat (constructor;
      [split; [eexists; vm_compute; reflexivity|vm_compute; reflexivity]|]).
    constructor. }
  split; [exact Hkeys|]. split; [vm_compute; discriminate|].
  destruct (X7_service_keyed_listing_never_deletes account tt tt
              account_literal {[ "Snapshots" := three aws_snapshot ]}
              account_literal (three aws_snapshot) eq_refl eq_refl Hkeys)
    as (Hd & Hl & _).
  by split.
Defined.

Lemma X10_orphan_list_exact_witness :
  collect_orphans account account_keyed
  = (inr ["snap-1"; "snap-3"]%string, account_keyed,
     trace (collect_orphans account account_keyed)) /\
  ["snap-1"; "snap-3"]%string
  = marked (three keyed_snapshot)
           (query_results (trace (collect_orphans account account_keyed))) /\
  queried_volumes (trace (collect_orphans account account_keyed))
  = ["vol-1"; "vol-2"; "vol-3"]%string /\
  length (query_results (trace (collect_orphans account account_keyed)))
  = 3%nat.
Proof.
  assert (Hc : collect_orphans account account_keyed
               = (inr ["snap-1"; "snap-3"]%string, account_keyed,
                  trace (collect_orphans account account_keyed)))
    by (vm_compute; reflexivity).
  split; [exact Hc|].
  destruct (X10_orphan_list_exact account account_keyed
              {[ "Snapshots" := three keyed_snapshot ]} account_keyed
              (three keyed_snapshot) _ _ _ eq_refl eq_refl Hc)
    as (Hm & _ & Hlen & _).
  split; [exact Hm|]. split; [vm_compute; reflexivity|exact Hlen].
Defined.

Lemma X11_status_queries_follow_listing_witness :
  omap (fun r : Snapshot => r !! "VolumeId")
       (acct_snapshots account_no_volume)
  = ["vol-2"; "vol-3"]%string /\
  queried_volumes (trace (invoke account_no_volume)) = ["vol-2"%string] /\
  exists rest,
    omap (fun r : Snapshot => r !! "VolumeId")
         (acct_snapshots account_no_volume)
    = queried_volumes (trace (invoke account_no_volume)) ++ rest.
Proof.
  split; [vm_compute; reflexivity|]. split; [vm_compute; reflexivity|].
  exact (X11_status_queries_follow_listing account tt tt account_no_volume
           {[ "Snapshots" := acct_snapshots account_no_volume ]}
           account_no_volume (acct_snapshots account_no_volume)
           eq_refl eq_refl).
Defined.

Lemma X12_deletions_only_of_marked_witness :
  delete_calls (trace (invoke account_locked))
  = ["snap-1"; "snap-3"]%string /\
  length (status_faults (trace (invoke account_locked))) = 2%nat /\
  (exists rest,
     marked (three keyed_snapshot)
            (query_results (trace (invoke account_locked)))
     = delete_calls (trace (invoke account_locked)) ++ rest) /\
  (length (delete_calls (trace (invoke account_locked)))
   <= length (status_faults (trace (invoke account_locked))))%nat.
Proof.
  split; [vm_compute; reflexivity|]. split; [vm_compute; reflexivity|].
  exact (X12_deletions_only_of_marked account tt tt account_locked
           {[ "Snapshots" := three keyed_snapshot ]} account_locked
           (three keyed_snapshot) eq_refl eq_refl).
Defined.

(** ** Service errors without a code *)

(** C2, as stated, fails: a status query that raises a service error whose
    response has no entry ["Error"] is a failure other than "volume not
    found", yet the invocation does not end with that error but with the
    key error of the lookup of line 17. *)
Lemma C2_codeless_error_not_propagated :
  codeless ∈ status_faults (trace (invoke account_codeless)) /\
  volume_not_found codeless = false /\
  outcome (invoke account_codeless) = inl (KeyError "Error") /\
  outcome (invoke account_codeless) <> inl codeless.
Proof.
  split; [vm_compute; constructor|]. split; [reflexivity|].
  split; [vm_compute; reflexivity|]. vm_compute. discriminate.
Qed.

Section CodelessErrors.

Context {St : Type} (ec2_cli : Provider St).
Context {E C : Type} (event : E) (context : C).

(** X13. A status query that raises a service error whose response lacks
    the entry ["Error"], or the entry ["Code"] within it, ends the
    invocation with the key error of that lookup: the error itself is not
    raised again, no result is returned, nothing is deleted or logged. *)
Theorem X13_codeless_service_error_key_error s missing text :
  ClientErrorNoCode missing text
    ∈ status_faults (trace (lambda_handler ec2_cli event context s)) ->
  outcome (lambda_handler ec2_cli event context s) = inl (KeyError missing) /\
  delete_calls (trace (lambda_handler ec2_cli event context s)) = [] /\
  log_records (trace (lambda_handler ec2_cli event context s)) = [].
Proof.
  intros Hin.
  by destruct (lambda_handler_fault ec2_cli event context s _ Hin eq_refl)
    as (_ & Ho & Hd & Hl).
Qed.

End CodelessErrors.

Lemma X13_codeless_service_error_key_error_witness :
  codeless ∈ status_faults (trace (invoke account_codeless)) /\
  outcome (invoke account_codeless) = inl (KeyError "Error") /\
  delete_calls (trace (invoke account_codeless)) = [] /\
  log_records (trace (invoke account_codeless)) = [].
Proof.
  assert (Hin : codeless ∈ status_faults (trace (invoke account_codeless))).
  { vm_compute. constructor. }
  split; [exact Hin|].
  exact (X13_codeless_service_error_key_error account tt tt account_codeless
           _ _ Hin).
Defined.
